(** * nomo6: the nonogram puzzle generator and the line evaluator

    A shallow embedding of the algorithmic core of the game:
    - the seeded generator [Random] and [generatePuzzle] (services/geminiService),
    - the seed derivation [stringToSeed] and the seed choice of [startNewGame],
    - the win check and [isRowComplete] / [isColComplete] of the [App] component,
    - the state of the [App] component and its handlers: [startNewGame],
      [updateCell], the mouse handlers, [handleCheatWin], the hints and the
      filled count of [getStats].

    JavaScript numbers that hold fractions (the seed counter, the draws, the
    densities) are IEEE-754 binary64 values, modelled by [float]; numbers that
    only ever hold small integers (cells, counts, indices, hashes) are
    modelled by [Z] and [nat]. Arrays are lists read with stdpp's lookup. A
    computation that can throw returns [option]: [None] stands for the
    [TypeError] raised when a row of a grid is [undefined]. *)

From Stdlib Require Import ZArith Floats Lia String Ascii.
From stdpp Require Import base option list.

Set Warnings "-inexact-float".

(** ** JavaScript numbers *)

(** The number closest to an integer (round to nearest, ties to even). *)
Definition number_of_Z (z : Z) : float :=
  SF2Prim (binary_normalize prec emax z 0 false).

(** [Math.floor]: the largest integral number not above [x]; NaN, the
    infinities and the zeros are returned as they are. *)
Definition Math_floor (x : float) : float :=
  match Prim2SF x with
  | S754_finite s m e =>
      if (0 <=? e)%Z then x
      else
        let q := Z.shiftr (Z.pos m) (- e) in
        let exact := (Z.shiftl q (- e) =? Z.pos m)%Z in
        if s then number_of_Z (if exact then - q else - q - 1)
        else number_of_Z q
  | _ => x
  end.

(** ** Arrays and loops *)

(** [for (const i of idx) s = body(i, s)], where the body may throw. *)
Fixpoint for_each {I S : Type} (idx : list I) (body : I → S → option S) (s : S)
  : option S :=
  match idx with
  | [] => Some s
  | i :: idx' => s' ← body i s; for_each idx' body s'
  end.

(** [for (let i = 0; i < n; i++)]. *)
Definition upto (n : nat) : list nat := seq 0 n.

(** [g[r][c]] as an expression: [None] when [g[r]] is [undefined] (the
    property read throws), [Some None] when the cell is [undefined]. *)
Definition index2 {A : Type} (g : list (list A)) (r c : nat) : option (option A) :=
  row ← g !! r; Some (row !! c).

(** [v === k] for a value read from an array. *)
Definition strict_eq {A : Type} `{EqDecision A} (v : option A) (k : A) : bool :=
  bool_decide (v = Some k).

(** A string is its sequence of UTF-16 code units, as [charCodeAt] reads it. *)
Abbreviation js_string := (list Z).

(** A grid of numbers. *)
Abbreviation Grid := (list (list Z)).

(** [g[y][x] = v]. The read of [g[y]] throws when the row is missing. Every
    write of the program lands inside the row; a write past the end of a row
    (which would grow the array) is outside the model and is [None] too. *)
Definition store (g : Grid) (y x : nat) (v : Z) : option Grid :=
  row ← g !! y;
  if decide (x < length row) then Some (<[y := <[x := v]> row]> g) else None.

(** [Array(size).fill(0).map(() => Array(size).fill(0))]. *)
Definition zeroGrid (size : nat) : Grid := replicate size (replicate size 0%Z).

(** ** The data model *)

(** Modelled from the spec: [DifficultySettings] is declared in the missing
    [types] module; the configuration table gives it a label and a closed
    density interval. *)
Record DifficultySettings := mkDifficulty {
  label : js_string;
  minDensity : float;
  maxDensity : float
}.

(** The template literal [`Pattern #${seed}`]: its fixed text and the number
    spliced in. *)
Inductive Title := PatternTitle (seed : float).

(** Modelled from the spec: [PuzzleData] is declared in the missing [types]
    module; these are the four fields [generatePuzzle] fills. *)
Record PuzzleData := mkPuzzle {
  title : Title;
  grid : Grid;
  size : nat;
  seed : float
}.

(** Modelled from the spec: [CellState] is declared in the missing [types]
    module; a player cell is one of three states. *)
Inductive CellState := EMPTY | FILLED | CROSSED.

#[global] Instance CellState_eq_dec : EqDecision CellState.
Proof. solve_decision. Defined.

(** ** The seeded generator *)

Section Generator.

(** [Math.sin] is implementation-approximated: the development holds for
    any function of numbers. *)
Variable Math_sin : float → float.

(** class Random: one mutable field, [seed] in the source ([seed] names a
    field of [PuzzleData] here). *)
Record Random := mkRandom { counter : float }.

(** [next()]: the draw and the object after [this.seed++]. *)
Definition Random_next (r : Random) : float * Random :=
  let x := (Math_sin (counter r) * 10000)%float in
  ((x - Math_floor x)%float, mkRandom (counter r + 1)%float).

(** [range(min, max)]. *)
Definition Random_range (min max : float) (r : Random) : float * Random :=
  let '(u, r') := Random_next r in
  ((Math_floor (u * (max - min + 1)) + min)%float, r').

(** [bool(chance)]. *)
Definition Random_bool (chance : float) (r : Random) : bool * Random :=
  let '(u, r') := Random_next r in ((u <? chance)%float, r').

(** *** generatePuzzle *)

(** 1. Initial noise: the body of the two loops. *)
Definition noiseCell (targetDensity : float) (y x : nat) (st : Random * Grid)
  : option (Random * Grid) :=
  let '(rng, g) := st in
  let '(b, rng) := Random_bool targetDensity rng in
  let val := if b then 1%Z else 0%Z in
  g ← store g y x val; Some (rng, g).

Definition noisePass (size : nat) (targetDensity : float) (st : Random * Grid)
  : option (Random * Grid) :=
  for_each (upto size) (fun y =>
    for_each (upto size) (fun x => noiseCell targetDensity y x)) st.

(** 2. Smoothing: one neighbour probe, [grid] being the pre-iteration grid. *)
Definition neighborStep (g : Grid) (size y x : nat) (dy dx : Z) (neighbors : Z)
  : option Z :=
  if ((dy =? 0) && (dx =? 0))%Z then Some neighbors
  else
    let ny := (Z.of_nat y + dy)%Z in
    let nx := (Z.of_nat x + dx)%Z in
    if ((0 <=? ny) && (ny <? Z.of_nat size) && (0 <=? nx) && (nx <? Z.of_nat size))%Z
    then
      c ← index2 g (Z.to_nat ny) (Z.to_nat nx);
      Some (if strict_eq c 1%Z then (neighbors + 1)%Z else neighbors)
    else Some neighbors.

Definition countNeighbors (g : Grid) (size y x : nat) : option Z :=
  for_each [-1; 0; 1]%Z (fun dy =>
    for_each [-1; 0; 1]%Z (fun dx => neighborStep g size y x dy dx)) 0%Z.

(** The body of the cell loops of one iteration: reads [g], writes [newGrid]. *)
Definition smoothCell (g : Grid) (size y x : nat) (newGrid : Grid) : option Grid :=
  neighbors ← countNeighbors g size y x;
  c ← index2 g y x;
  if strict_eq c 1%Z
  then store newGrid y x (if (3 <=? neighbors)%Z then 1 else 0)%Z
  else store newGrid y x (if (4 <=? neighbors)%Z then 1 else 0)%Z.

(** [grid[y][x] = newGrid[y][x]]; the cell read is always there, a missing
    one is outside the model. *)
Definition copyCell (newGrid : Grid) (y x : nat) (g : Grid) : option Grid :=
  c ← index2 newGrid y x;
  v ← c;
  store g y x v.

(** One iteration: copy, recompute every cell, copy back. *)
Definition smoothIteration (size : nat) (g : Grid) : option Grid :=
  let newGrid := g in
  newGrid ← for_each (upto size) (fun y =>
              for_each (upto size) (fun x => smoothCell g size y x)) newGrid;
  for_each (upto size) (fun y =>
    for_each (upto size) (fun x => copyCell newGrid y x)) g.

(** The guard of the smoothing pass. *)
Definition smoothingApplies (targetDensity : float) : bool :=
  ((0.3 <? targetDensity) && (targetDensity <? 0.8))%float.

Definition iterations : nat := 2.

Definition smoothingPass (size : nat) (targetDensity : float) (g : Grid)
  : option Grid :=
  if smoothingApplies targetDensity
  then for_each (upto iterations) (fun _ => smoothIteration size) g
  else Some g.

(** 3. Safety check. *)
Definition filledCount (g : Grid) : Z :=
  foldl (fun count row => foldl (fun count cell => (count + cell)%Z) count row) 0%Z g.

Definition safetyCheck (size : nat) (g : Grid) : option Grid :=
  let count := filledCount g in
  g ← (if (count =? 0)%Z then store g (size / 2) (size / 2) 1%Z else Some g);
  if (count =? Z.of_nat size * Z.of_nat size)%Z then store g 0 0 0%Z else Some g.

(** The function; the 50 ms delay it starts with takes no part in the
    result. [size] is a natural number: on any other number [Array(size)]
    throws before a grid exists. *)
Definition generatePuzzle (seed : float) (size : nat) (difficulty : DifficultySettings)
  : option PuzzleData :=
  let rng := mkRandom seed in
  let g := zeroGrid size in
  let '(u, rng) := Random_next rng in
  let targetDensity :=
    (minDensity difficulty
     + u * (maxDensity difficulty - minDensity difficulty))%float in
  st ← noisePass size targetDensity (rng, g);
  g ← smoothingPass size targetDensity (snd st);
  g ← safetyCheck size g;
  Some {| title := PatternTitle seed; grid := g; size := size; seed := seed |}.

(** *** The intermediate values of a run

    The properties below speak of the density drawn, of the raw noise grid
    and of the grid the safety check starts from. Each is the value of the
    corresponding variable of [generatePuzzle] at that point of the run
    ([generatePuzzle_stages] ties them to the function). *)

(** [targetDensity]. *)
Definition targetDensity (seed : float) (difficulty : DifficultySettings) : float :=
  let '(u, _) := Random_next (mkRandom seed) in
  (minDensity difficulty
   + u * (maxDensity difficulty - minDensity difficulty))%float.

(** [grid] after the noise pass. *)
Definition rawNoise (seed : float) (size : nat) (difficulty : DifficultySettings)
  : option Grid :=
  let '(_, rng) := Random_next (mkRandom seed) in
  st ← noisePass size (targetDensity seed difficulty) (rng, zeroGrid size);
  Some (snd st).

(** [grid] after the smoothing pass, before the safety check. *)
Definition preCorrection (seed : float) (size : nat) (difficulty : DifficultySettings)
  : option Grid :=
  g ← rawNoise seed size difficulty;
  smoothingPass size (targetDensity seed difficulty) g.

End Generator.

(** ** Seeds from text *)

(** [ToInt32]: wrap into the signed 32-bit range. *)
Definition toInt32 (z : Z) : Z :=
  let m := (z mod 2 ^ 32)%Z in
  if (m <? 2 ^ 31)%Z then m else (m - 2 ^ 32)%Z.

(** [a << k] on numbers. *)
Definition shiftLeft32 (a : Z) (k : Z) : Z :=
  toInt32 (Z.shiftl (toInt32 a) (k mod 32)).

(** The loop body of [stringToSeed]: [hash = ((hash << 5) - hash) + char;
    hash |= 0]. *)
Definition hashStep (hash char : Z) : Z :=
  toInt32 (shiftLeft32 hash 5 - hash + char).

(** [stringToSeed]; the result is an integer of magnitude at most [2^31]. *)
Definition stringToSeed (str : js_string) : Z :=
  if decide (length str = 0) then 0%Z
  else Z.abs (foldl hashStep 0%Z str).

(** White space and line terminators, the code units [trim] strips. *)
Definition isWhiteSpace (c : Z) : bool :=
  bool_decide (c ∈ [9; 10; 11; 12; 13; 32; 160; 5760; 8232; 8233; 8239; 8287;
                    12288; 65279]%Z)
  || ((8192 <=? c) && (c <=? 8202))%Z.

Fixpoint dropWhile {A : Type} (f : A → bool) (l : list A) : list A :=
  match l with
  | [] => []
  | a :: l' => if f a then dropWhile f l' else l
  end.

Fixpoint takeWhile {A : Type} (f : A → bool) (l : list A) : list A :=
  match l with
  | [] => []
  | a :: l' => if f a then a :: takeWhile f l' else []
  end.

(** [s.trim()]. *)
Definition trim (s : js_string) : js_string :=
  reverse (dropWhile isWhiteSpace (reverse (dropWhile isWhiteSpace s))).

(** [\d]. *)
Definition isDigit (c : Z) : bool := ((48 <=? c) && (c <=? 57))%Z.

(** [/^\d+$/.test(s)]. *)
Definition allDigits (s : js_string) : bool :=
  negb (bool_decide (s = [])) && forallb isDigit s.

(** The integer a run of decimal digits denotes. *)
Definition digitsValue (ds : js_string) : Z :=
  foldl (fun acc d => (acc * 10 + (d - 48))%Z) 0%Z ds.

(** [parseInt(s, 10)]: leading white space, a sign, the longest run of
    digits; NaN when there is no digit. *)
Definition parseInt10 (s : js_string) : float :=
  let s := dropWhile isWhiteSpace s in
  let '(neg, s) :=
    match s with
    | c :: s' =>
        if (c =? 45)%Z then (true, s')
        else if (c =? 43)%Z then (false, s')
        else (false, s)
    | [] => (false, s)
    end in
  match takeWhile isDigit s with
  | [] => nan
  | ds => let v := number_of_Z (digitsValue ds) in if neg then (- v)%float else v
  end.

(** The seed [startNewGame] hands to [generatePuzzle]. [seedVal] is the
    optional argument; [random] is the value [Math.random()] returns if it is
    called. *)
Definition finalSeed (seedVal : option js_string) (random : float) : float :=
  match seedVal with
  | Some s =>
      if negb (bool_decide (s = [])) && bool_decide (0 < length (trim s))
      then
        if allDigits s then parseInt10 s
        else number_of_Z (stringToSeed s)
      else Math_floor (random * 2000000000)%float
  | None => Math_floor (random * 2000000000)%float
  end.

(** ** The evaluator *)

(** The two tests every evaluator loop makes on a cell. *)
Definition mismatch (target : option Z) (current : option CellState) : bool :=
  if strict_eq target 1%Z && negb (strict_eq current FILLED) then true
  else if strict_eq target 0%Z && strict_eq current FILLED then true
  else false.

(** A loop over [idx] that leaves at the first cell [probe] reports as a
    mismatch: [Some true] when it left early, [Some false] when it ran to
    the end. *)
Fixpoint leavesEarly (idx : list nat) (probe : nat → option bool) : option bool :=
  match idx with
  | [] => Some false
  | i :: idx' =>
      hit ← probe i;
      if (hit : bool) then Some true else leavesEarly idx' probe
  end.

(** The cell read and tested at row [r], column [c]. *)
Definition probeCell (puzzle : PuzzleData) (playerGrid : list (list CellState))
    (r c : nat) : option bool :=
  target ← index2 (grid puzzle) r c;
  current ← index2 playerGrid r c;
  Some (mismatch target current).

(** The win check of the effect: the inner loop sets [isWin = false] and
    breaks; the outer loop goes on with the next row. *)
Definition isWin (puzzle : PuzzleData) (playerGrid : list (list CellState))
  : option bool :=
  for_each (upto (size puzzle)) (fun r isWin =>
    hit ← leavesEarly (upto (size puzzle)) (probeCell puzzle playerGrid r);
    Some (if (hit : bool) then false else isWin)) true.

Definition isRowComplete (puzzle : option PuzzleData)
    (playerGrid : list (list CellState)) (rowIndex : nat) : option bool :=
  match puzzle with
  | None => Some false
  | Some puzzle =>
      if decide (length playerGrid = 0) then Some false
      else
        hit ← leavesEarly (upto (size puzzle))
                (fun c => probeCell puzzle playerGrid rowIndex c);
        Some (negb hit)
  end.

Definition isColComplete (puzzle : option PuzzleData)
    (playerGrid : list (list CellState)) (colIndex : nat) : option bool :=
  match puzzle with
  | None => Some false
  | Some puzzle =>
      if decide (length playerGrid = 0) then Some false
      else
        hit ← leavesEarly (upto (size puzzle))
                (fun r => probeCell puzzle playerGrid r colIndex);
        Some (negb hit)
  end.

(** ** Vocabulary of the specification *)

(** The cell at row [y], column [x], when there is one. *)
Definition cell {A : Type} (g : list (list A)) (y x : nat) : option A :=
  row ← g !! y; row !! x.

(** An [n] by [n] matrix. *)
Definition square {A : Type} (n : nat) (g : list (list A)) : Prop :=
  length g = n ∧ ∀ y row, g !! y = Some row → length row = n.

(** Every cell is 0 (empty) or 1 (filled). *)
Definition binary (g : Grid) : Prop :=
  ∀ y x c, cell g y x = Some c → c = 0%Z ∨ c = 1%Z.

(** A SolutionGrid of the data model: a square matrix of cells 0 and 1. *)
Definition solutionGrid (n : nat) (g : Grid) : Prop := square n g ∧ binary g.

(** The matrix whose cell at [(y, x)] is [f y x]. *)
Definition tabulate (n : nat) (f : nat → nat → Z) : Grid :=
  (λ y, (λ x, f y x) <$> upto n) <$> upto n.

(** [g'] is [g] with the cell [(y, x)] forced to [v]: every other cell is
    unchanged. *)
Definition forcedAt (g g' : Grid) (y x : nat) (v : Z) : Prop :=
  cell g' y x = Some v ∧ ∀ y' x', (y', x') ≠ (y, x) → cell g' y' x' = cell g y' x'.

(** Moore neighbourhood: the cells that touch [(y, x)] horizontally,
    vertically or diagonally. *)
Definition adjacent (y x y' x' : nat) : bool :=
  bool_decide ((y', x') ≠ (y, x) ∧ y' ≤ y + 1 ∧ y ≤ y' + 1 ∧ x' ≤ x + 1 ∧ x ≤ x' + 1).

Definition filledAt (g : Grid) (y x : nat) : bool :=
  bool_decide (cell g y x = Some 1%Z).

(** The number of cells of the [n] by [n] grid that are neighbours of
    [(y, x)] and filled in [g]. *)
Definition filledNeighbors (n : nat) (g : Grid) (y x : nat) : nat :=
  sum_list_with (λ y',
    sum_list_with (λ x',
      if adjacent y x y' x' && filledAt g y' x' then 1 else 0) (upto n)) (upto n).

(** The update rule: a filled cell stays filled iff it has at least 3 filled
    neighbours, an empty cell becomes filled iff it has at least 4. *)
Definition smoothRule (filled : bool) (neighbors : nat) : Z :=
  if filled then (if decide (3 ≤ neighbors) then 1%Z else 0%Z)
  else (if decide (4 ≤ neighbors) then 1%Z else 0%Z).

(** One smoothing iteration as the specification words it: every cell of the
    new grid is the rule applied to the pre-iteration grid. *)
Definition smoothSpec (n : nat) (g : Grid) : Grid :=
  tabulate n (λ y x, smoothRule (filledAt g y x) (filledNeighbors n g y x)).

(** Decidable forms of [square] and [binary], for concrete grids. *)
Definition squareb {A : Type} (n : nat) (g : list (list A)) : bool :=
  bool_decide (length g = n) && forallb (λ row, bool_decide (length row = n)) g.

Definition binaryb (g : Grid) : bool :=
  forallb (forallb (λ c, bool_decide (c = 0%Z ∨ c = 1%Z))) g.

(** A row of cells 0 and 1, and a grid of such rows of length [m]. *)
Definition rowBinary (row : list Z) : Prop :=
  ∀ x c, row !! x = Some c → c = 0%Z ∨ c = 1%Z.

Definition gridRows (m : nat) (g : Grid) : Prop :=
  ∀ y row, g !! y = Some row → length row = m ∧ rowBinary row.

(** The sum of a row, as the inner [forEach] of the safety check adds it. *)
Abbreviation rowSum row := (foldl (λ count c : Z, (count + c)%Z) 0%Z row).

(** The cell match rule. *)
Definition cellMatches (solution : Z) (player : CellState) : Prop :=
  (solution = 1%Z ∧ player = FILLED) ∨ (solution = 0%Z ∧ player ≠ FILLED).

(** Every cell of the two [n] by [n] grids matches. *)
Definition allCellsMatch (n : nat) (S : Grid) (P : list (list CellState)) : Prop :=
  ∀ r c, r < n → c < n →
    ∃ s p, cell S r c = Some s ∧ cell P r c = Some p ∧ cellMatches s p.

(** The player grid with every CROSSED cell replaced by EMPTY, and with every
    EMPTY cell replaced by CROSSED. *)
Definition uncross (P : list (list CellState)) : list (list CellState) :=
  (λ row : list CellState,
     (λ c, match c with CROSSED => EMPTY | _ => c end) <$> row) <$> P.

Definition crossOut (P : list (list CellState)) : list (list CellState) :=
  (λ row : list CellState,
     (λ c, match c with EMPTY => CROSSED | _ => c end) <$> row) <$> P.

(** A relabelling of player cells that keeps FILLED apart from the rest. *)
Definition keepsFilled (f : CellState → CellState) : Prop :=
  ∀ c, f c = FILLED ↔ c = FILLED.

(** The numbers strictly between 0.3 and 0.8. *)
Definition midRange (d : float) : Prop :=
  (0.3 <? d)%float = true ∧ (d <? 0.8)%float = true.

(** A text with at least one code unit that is not white space. *)
Definition hasText (s : js_string) : Prop := ∃ c, c ∈ s ∧ isWhiteSpace c = false.

(** ** Sample inputs *)

(** One admissible sine: reduction to a period around zero, then the Taylor
    polynomial of degree 29. *)
Definition sin_series (x : float) : float :=
  let two_pi := 6.283185307179586%float in
  let k := Math_floor (x / two_pi + 0.5)%float in
  let r := (x - k * two_pi)%float in
  let r2 := (r * r)%float in
  let term (acc : float * float) (n : Z) : float * float :=
    let '(sum, t) := acc in
    let t' := (- t * r2 / number_of_Z ((2 * n) * (2 * n + 1)))%float in
    ((sum + t')%float, t') in
  fst (foldl term (r, r) [1; 2; 3; 4; 5; 6; 7; 8; 9; 10; 11; 12; 13; 14]%Z).

(** ASCII text as code units. *)
Definition codeUnits (s : string) : js_string :=
  (λ a, Z.of_N (N_of_ascii a)) <$> list_ascii_of_string s.

(** Three rows of [DIFFICULTY_CONFIG] (gameConfig.ts). *)
Definition VERY_EASY : DifficultySettings :=
  mkDifficulty (codeUnits "Very Easy (90-99%)"%string) 0.90 0.99.
Definition MEDIUM : DifficultySettings :=
  mkDifficulty (codeUnits "Medium (50-70%)"%string) 0.50 0.70.
Definition HARD : DifficultySettings :=
  mkDifficulty (codeUnits "Hard (30-50%)"%string) 0.30 0.50.

(** The 2 by 2 solution and player grids of the evaluator scenario. *)
Definition diagonal : PuzzleData :=
  {| title := PatternTitle 0; grid := [[1; 0]; [0; 1]]%Z; size := 2; seed := 0 |}.

Definition diagonalPlay : list (list CellState) :=
  [[FILLED; EMPTY]; [CROSSED; FILLED]].

(** ** The App component *)

(** Modelled from the spec: [ToolType], [GameState] and [DifficultyLevel]
    are declared in the missing [types] module; these are the values the
    component uses. *)
Inductive ToolType := FILL | CROSS.

Inductive Status := Idle | Loading | Playing | Won | Error.

Record GameState := mkGameState {
  status : Status;
  errorMessage : option string
}.

Inductive DifficultyLevel := VeryEasy | Easy | Medium | Hard | VeryHard.

#[global] Instance ToolType_eq_dec : EqDecision ToolType.
Proof. solve_decision. Defined.

#[global] Instance Status_eq_dec : EqDecision Status.
Proof. solve_decision. Defined.

(** The two remaining rows of [DIFFICULTY_CONFIG], and the table. *)
Definition EASY : DifficultySettings :=
  mkDifficulty (codeUnits "Easy (70-90%)"%string) 0.70 0.90.
Definition VERY_HARD : DifficultySettings :=
  mkDifficulty (codeUnits "Very Hard (10-30%)"%string) 0.10 0.30.

Definition DIFFICULTY_CONFIG (level : DifficultyLevel) : DifficultySettings :=
  match level with
  | VeryEasy => VERY_EASY
  | Easy => EASY
  | Medium => MEDIUM
  | Hard => HARD
  | VeryHard => VERY_HARD
  end.

(** [createEmptyGrid]. *)
Definition createEmptyGrid (size : nat) : list (list CellState) :=
  replicate size (replicate size EMPTY).

(** The state of the component read or written by the handlers below: the
    [useState] values and the two [useRef] values of the drag. *)
Record AppState := mkApp {
  puzzle : option PuzzleData;
  playerGrid : list (list CellState);
  gameState : GameState;
  isDebugVisible : bool;
  isCheckHintsActive : bool;
  winCorner : option float;
  activeTool : ToolType;
  selectedSize : nat;
  selectedDifficulty : DifficultyLevel;
  isDragging : bool;
  dragTargetState : option CellState
}.

Definition setPlayerGrid (g : list (list CellState)) (st : AppState) : AppState :=
  mkApp (puzzle st) g (gameState st) (isDebugVisible st) (isCheckHintsActive st)
        (winCorner st) (activeTool st) (selectedSize st) (selectedDifficulty st)
        (isDragging st) (dragTargetState st).

Definition setDrag (dragging : bool) (target : option CellState) (st : AppState)
  : AppState :=
  mkApp (puzzle st) (playerGrid st) (gameState st) (isDebugVisible st)
        (isCheckHintsActive st) (winCorner st) (activeTool st) (selectedSize st)
        (selectedDifficulty st) dragging target.

(** [updateCell]: the updater handed to [setPlayerGrid]. The read of
    [prev[r]] throws when the row is missing; a write past the end of the row
    is outside the model, as for [store]. *)
Definition updateCell (prev : list (list CellState)) (r c : nat)
    (newState : CellState) : option (list (list CellState)) :=
  cur ← index2 prev r c;
  if strict_eq cur newState then Some prev
  else
    row ← prev !! r;
    if decide (c < length row) then Some (<[r := <[c := newState]> row]> prev)
    else None.

(** The state a press with [tool] gives a cell. *)
Definition toggled (tool : ToolType) (currentCell : option CellState) : CellState :=
  if decide (tool = FILL)
  then (if strict_eq currentCell FILLED then EMPTY else FILLED)
  else (if strict_eq currentCell CROSSED then EMPTY else CROSSED).

(** [handleMouseDown]; [button] is [e.button]. *)
Definition handleMouseDown (button : Z) (r c : nat) (st : AppState)
  : option AppState :=
  if decide (status (gameState st) ≠ Playing) then Some st
  else
    let tool := if (button =? 2)%Z then CROSS else activeTool st in
    currentCell ← index2 (playerGrid st) r c;
    let targetState := toggled tool currentCell in
    g ← updateCell (playerGrid st) r c targetState;
    Some (setPlayerGrid g (setDrag true (Some targetState) st)).

(** [handleMouseEnter]. *)
Definition handleMouseEnter (r c : nat) (st : AppState) : option AppState :=
  if decide (status (gameState st) ≠ Playing) then Some st
  else
    match isDragging st, dragTargetState st with
    | true, Some target =>
        g ← updateCell (playerGrid st) r c target;
        Some (setPlayerGrid g st)
    | _, _ => Some st
    end.

(** [handleGlobalMouseUp]. *)
Definition handleGlobalMouseUp (st : AppState) : AppState := setDrag false None st.

(** [handleCheatWin]. *)
Definition solvedGrid (p : PuzzleData) : list (list CellState) :=
  (λ row : list Z,
     (λ val, if bool_decide (val = 1%Z) then FILLED else EMPTY) <$> row) <$> grid p.

Definition handleCheatWin (st : AppState) : AppState :=
  match puzzle st with
  | None => st
  | Some p => setPlayerGrid (solvedGrid p) st
  end.

(** The win-check effect; [random] is the value [Math.random()] returns if
    it is called. *)
Definition winEffect (random : float) (st : AppState) : option AppState :=
  match puzzle st with
  | Some p =>
      if decide (status (gameState st) ≠ Playing) then Some st
      else
        won ← isWin p (playerGrid st);
        if (won : bool)
        then Some (mkApp (puzzle st) (playerGrid st) (mkGameState Won None)
                     false true (Some (Math_floor (random * 4)%float))
                     (activeTool st) (selectedSize st) (selectedDifficulty st)
                     (isDragging st) (dragTargetState st))
        else Some st
  | None => Some st
  end.

(** [colHints] and [rowHints]; a hint line holds what [row[c]] reads. *)
Definition colHints (puzzle : option PuzzleData) : list (list (option Z)) :=
  match puzzle with
  | Some p => (λ c, (λ row : list Z, row !! c) <$> grid p) <$> upto (size p)
  | None => []
  end.

Definition rowHints (puzzle : option PuzzleData) : Grid :=
  match puzzle with
  | Some p => grid p
  | None => []
  end.

(** The [count] field of [getStats]. *)
Definition statsCount (puzzle : option PuzzleData) : Z :=
  match puzzle with
  | None => 0%Z
  | Some p => filledCount (grid p)
  end.

Section App.

Variable Math_sin : float → float.

(** [startNewGame], run to its end: the state when the promise has settled.
    An exception of the [try] block ends in the [catch]. *)
Definition startNewGame (seedVal : option js_string) (random : float)
    (st : AppState) : AppState :=
  let diffConfig := DIFFICULTY_CONFIG (selectedDifficulty st) in
  match generatePuzzle Math_sin (finalSeed seedVal random) (selectedSize st)
          diffConfig with
  | Some newPuzzle =>
      mkApp (Some newPuzzle) (createEmptyGrid (size newPuzzle))
            (mkGameState Playing None) false false None
            (activeTool st) (selectedSize st) (selectedDifficulty st)
            (isDragging st) (dragTargetState st)
  | None =>
      mkApp (puzzle st) (playerGrid st)
            (mkGameState Error (Some "Failed to generate puzzle."%string))
            false false None
            (activeTool st) (selectedSize st) (selectedDifficulty st)
            (isDragging st) (dragTargetState st)
  end.

End App.

(** The events of a game in progress, and the handler each one reaches. The
    win-check effect is an event of its own, so that a sequence of events
    fixes when it runs. *)
Inductive Event :=
| MouseDown (button : Z) (r c : nat)
| MouseEnter (r c : nat)
| MouseUp
| CheatWin
| WinCheck (random : float).

Definition handle (ev : Event) (st : AppState) : option AppState :=
  match ev with
  | MouseDown button r c => handleMouseDown button r c st
  | MouseEnter r c => handleMouseEnter r c st
  | MouseUp => Some (handleGlobalMouseUp st)
  | CheatWin => Some (handleCheatWin st)
  | WinCheck random => winEffect random st
  end.

(** The cell an event points at lies inside an [n] by [n] grid. *)
Definition inGrid (n : nat) (ev : Event) : Prop :=
  match ev with
  | MouseDown _ r c | MouseEnter r c => r < n ∧ c < n
  | _ => True
  end.

(** A game in progress on an [n] by [n] board: a puzzle of that size and a
    player grid of the same dimensions. *)
Definition boardOf (n : nat) (st : AppState) : Prop :=
  ∃ p, puzzle st = Some p ∧ size p = n ∧ square n (grid p)
       ∧ square n (playerGrid st).

(** The mark a tool leaves. *)
Definition markOf (tool : ToolType) : CellState :=
  match tool with FILL => FILLED | CROSS => CROSSED end.

(** *** Vocabulary of the further properties *)

(** The hash of the text as a polynomial in 31, without wrap-around. *)
Definition polyHash (str : js_string) : Z :=
  foldl (λ h char, (31 * h + char)%Z) 0%Z str.

(** The grid with the same value in every cell. *)
Definition constGrid (n : nat) (v : Z) : Grid := replicate n (replicate n v).

(** The component as it is mounted, and a game in progress on the 2 by 2
    board of the evaluator scenario. *)
Definition mountedApp : AppState :=
  mkApp None [] (mkGameState Idle None) false false None FILL 10 Medium false None.

Definition diagonalApp : AppState :=
  mkApp (Some diagonal) diagonalPlay (mkGameState Playing None) false false None
        FILL 2 Medium false None.



(** What can happen between two presses: releases and runs of the win
    check. *)
Definition idleEvent (ev : Event) : Prop :=
  match ev with
  | MouseUp | WinCheck _ => True
  | _ => False
  end.

Definition isCheck (ev : Event) : bool :=
  match ev with WinCheck _ => true | _ => false end.

(** A game just started on the 2 by 2 board of the evaluator scenario. *)
Definition startedApp : AppState :=
  mkApp (Some diagonal) (createEmptyGrid 2) (mkGameState Playing None) false
        false None FILL 2 Medium false None.

(** * Properties *)

(** ** Loops *)

Lemma for_each_seq_inv {S : Type} (P : nat → S → Prop) (n : nat)
    (body : nat → S → option S) :
  (∀ i s, i < n → P i s → ∃ s', body i s = Some s' ∧ P (Datatypes.S i) s') →
  ∀ k a s, a + k = n → P a s →
    ∃ s', for_each (seq a k) body s = Some s' ∧ P n s'.
Proof.
  intros Hstep k. induction k as [|k IH]; intros a s Hak HP; simpl.
  - exists s. split; [done|]. by replace n with a by lia.
  - destruct (Hstep a s) as (s' & -> & HP'); [lia|done|]. simpl.
    apply IH; [lia|done].
Qed.

Lemma for_each_upto_inv {S : Type} (P : nat → S → Prop) (n : nat)
    (body : nat → S → option S) (s : S) :
  P 0 s →
  (∀ i s, i < n → P i s → ∃ s', body i s = Some s' ∧ P (Datatypes.S i) s') →
  ∃ s', for_each (upto n) body s = Some s' ∧ P n s'.
Proof. intros H0 Hstep. by apply (for_each_seq_inv P n body Hstep n 0 s). Qed.

(** ** Grids *)

Lemma index2_cell {A : Type} (g : list (list A)) (y x : nat) :
  y < length g → index2 g y x = Some (cell g y x).
Proof.
  intros Hy. unfold index2, cell.
  destruct (lookup_lt_is_Some_2 g y Hy) as [row ->]. done.
Qed.

Lemma square_cell {A : Type} (n : nat) (g : list (list A)) (y x : nat) :
  square n g → y < n → x < n → is_Some (cell g y x).
Proof.
  intros [Hl Hr] Hy Hx. unfold cell.
  destruct (lookup_lt_is_Some_2 g y) as [row Hrow]; [lia|].
  rewrite Hrow. simpl. apply lookup_lt_is_Some_2. rewrite (Hr _ _ Hrow). done.
Qed.

Lemma grid_ext {A : Type} (n : nat) (g g' : list (list A)) :
  square n g → square n g' →
  (∀ y x, y < n → x < n → cell g y x = cell g' y x) → g = g'.
Proof.
  intros [Hl Hr] [Hl' Hr'] Hc.
  apply (list_eq_same_length _ _ n); [done..|].
  intros y row row' Hy Hrow Hrow'.
  apply (list_eq_same_length _ _ n); [by eapply Hr'| by eapply Hr|].
  intros x c c' Hx Hcx Hcx'.
  specialize (Hc y x Hy Hx). unfold cell in Hc.
  rewrite Hrow, Hrow' in Hc. simpl in Hc. congruence.
Qed.

Lemma store_spec (n : nat) (g : Grid) (y x : nat) (v : Z) :
  square n g → y < n → x < n →
  ∃ g', store g y x v = Some g' ∧ square n g' ∧
        cell g' y x = Some v ∧
        (∀ y' x', (y', x') ≠ (y, x) → cell g' y' x' = cell g y' x').
Proof.
  intros [Hl Hr] Hy Hx. unfold store.
  destruct (lookup_lt_is_Some_2 g y) as [row Hrow]; [lia|].
  rewrite Hrow. simpl. pose proof (Hr _ _ Hrow) as Hlen.
  rewrite decide_True by lia.
  eexists. split; [done|]. split; [|split].
  - split; [by rewrite length_insert|].
    intros y' row' Hy'. destruct (decide (y = y')) as [<-|Hne].
    + rewrite list_lookup_insert_eq in Hy' by lia.
      injection Hy' as <-. by rewrite length_insert.
    + rewrite list_lookup_insert_ne in Hy' by done. by eapply Hr.
  - unfold cell. rewrite list_lookup_insert_eq by lia. simpl.
    apply list_lookup_insert_eq. lia.
  - intros y' x' Hne. unfold cell.
    destruct (decide (y = y')) as [<-|Hy'].
    + rewrite list_lookup_insert_eq by lia. rewrite Hrow. simpl.
      apply list_lookup_insert_ne. congruence.
    + by rewrite list_lookup_insert_ne.
Qed.

Lemma square_zeroGrid (n : nat) : square n (zeroGrid n).
Proof.
  unfold zeroGrid. split; [apply length_replicate|].
  intros y row [-> _]%lookup_replicate. apply length_replicate.
Qed.

Lemma cell_zeroGrid (n y x : nat) (c : Z) :
  cell (zeroGrid n) y x = Some c → c = 0%Z.
Proof.
  unfold cell, zeroGrid. intros H.
  destruct (replicate n (replicate n 0%Z) !! y) as [row|] eqn:Hrow; [|done].
  apply lookup_replicate in Hrow as [-> _]. simpl in H.
  by apply lookup_replicate in H as [-> _].
Qed.

Lemma square_tabulate (n : nat) (f : nat → nat → Z) : square n (tabulate n f).
Proof.
  unfold tabulate, upto. split; [by rewrite length_fmap, length_seq|].
  intros y row Hrow. rewrite list_lookup_fmap in Hrow.
  destruct (seq 0 n !! y); [|done]. injection Hrow as <-.
  by rewrite length_fmap, length_seq.
Qed.

Lemma cell_tabulate (n : nat) (f : nat → nat → Z) (y x : nat) :
  y < n → x < n → cell (tabulate n f) y x = Some (f y x).
Proof.
  intros Hy Hx. unfold cell, tabulate, upto.
  rewrite list_lookup_fmap, lookup_seq_lt by done. simpl.
  by rewrite list_lookup_fmap, lookup_seq_lt.
Qed.

Lemma cell_bounds {A : Type} (n : nat) (g : list (list A)) (y x : nat) (c : A) :
  square n g → cell g y x = Some c → y < n ∧ x < n.
Proof.
  intros [Hl Hr] H. unfold cell in H.
  destruct (g !! y) as [row|] eqn:Hrow; [|done]. simpl in H.
  pose proof (Hr _ _ Hrow) as Hlen.
  apply lookup_lt_Some in Hrow. apply lookup_lt_Some in H. lia.
Qed.

Lemma fill_loop (n : nat) (body : nat → nat → Grid → option Grid)
    (f : nat → nat → Z) (g : Grid) :
  square n g →
  (∀ y x g', y < n → x < n → square n g' → body y x g' = store g' y x (f y x)) →
  for_each (upto n) (λ y, for_each (upto n) (λ x, body y x)) g
  = Some (tabulate n f).
Proof.
  intros Hsq Hbody.
  destruct (for_each_upto_inv
    (λ y g', square n g' ∧
             ∀ y' x', y' < y → x' < n → cell g' y' x' = Some (f y' x'))
    n (λ y, for_each (upto n) (λ x, body y x)) g) as (g' & Hg' & Hsq' & Hall).
  - split; [done|]. intros; lia.
  - intros y gy Hy [Hsqy Hrows].
    destruct (for_each_upto_inv
      (λ x g', square n g' ∧
               (∀ y' x', y' < y → x' < n → cell g' y' x' = Some (f y' x')) ∧
               ∀ x', x' < x → cell g' y x' = Some (f y x'))
      n (λ x, body y x) gy) as (g2 & H2 & Hsq2 & Hrows2 & Hrow2).
    + split; [done|]. split; [done|]. intros; lia.
    + intros x gx Hx (Hsqx & Hrowsx & Hrowx). rewrite Hbody by done.
      destruct (store_spec n gx y x (f y x)) as (g3 & -> & Hsq3 & Hc & Hother);
        [done..|].
      exists g3. split; [done|]. split; [done|]. split.
      * intros y' x' Hy' Hx'. rewrite Hother; [auto|]. intros [= -> ->]; lia.
      * intros x' Hx'. destruct (decide (x' = x)) as [->|Hne]; [done|].
        rewrite Hother; [apply Hrowx; lia|congruence].
    + exists g2. split; [done|]. split; [done|].
      intros y' x' Hy' Hx'. destruct (decide (y' = y)) as [->|Hne].
      * by apply Hrow2.
      * apply Hrows2; [lia|done].
  - rewrite Hg'. f_equal. apply (grid_ext n); [done|apply square_tabulate|].
    intros y x Hy Hx. rewrite cell_tabulate by done. by apply Hall.
Qed.

Lemma store_binary (n : nat) (g g' : Grid) (y x : nat) (v : Z) :
  square n g → binary g → (v = 0 ∨ v = 1)%Z → y < n → x < n →
  store g y x v = Some g' → solutionGrid n g'.
Proof.
  intros Hsq Hbin Hv Hy Hx Hst.
  destruct (store_spec n g y x v) as (g2 & Hst2 & Hsq2 & Hc & Hother); [done..|].
  rewrite Hst in Hst2. injection Hst2 as <-. split; [done|].
  intros y' x' c Hcell. destruct (decide ((y', x') = (y, x))) as [[= -> ->]|Hne].
  - rewrite Hc in Hcell. by injection Hcell as <-.
  - rewrite Hother in Hcell by done. by eapply Hbin.
Qed.

Lemma binary_zeroGrid (n : nat) : binary (zeroGrid n).
Proof. intros y x c H. left. by eapply cell_zeroGrid. Qed.

(** ** The noise pass *)

Section NoiseFacts.
Variable Math_sin : float → float.

Lemma noisePass_ok (n : nat) (d : float) (rng : Random) (g : Grid) :
  solutionGrid n g →
  ∃ st, noisePass Math_sin n d (rng, g) = Some st ∧ solutionGrid n (snd st).
Proof.
  intros Hg. unfold noisePass.
  apply (for_each_upto_inv (λ _ st, solutionGrid n (snd st))); [done|].
  intros y st Hy Hst.
  apply (for_each_upto_inv (λ _ st, solutionGrid n (snd st))); [done|].
  intros x [r gx] Hx [Hsq Hbin]. unfold noiseCell.
  destruct (Random_bool Math_sin d r) as [b r']. cbv zeta. simpl in Hsq, Hbin.
  destruct (store_spec n gx y x (if b then 1%Z else 0%Z))
    as (g3 & Hst3 & _); [done..|].
  rewrite Hst3. simpl. eexists. split; [done|]. simpl.
  apply (store_binary n gx g3 y x (if b then 1 else 0)%Z);
    [done|done|destruct b; auto|done|done|done].
Qed.

Lemma rawNoise_ok (s : float) (n : nat) (b : DifficultySettings) :
  ∃ g, rawNoise Math_sin s n b = Some g ∧ solutionGrid n g.
Proof.
  unfold rawNoise. destruct (Random_next Math_sin (mkRandom s)) as [u rng].
  destruct (noisePass_ok n (targetDensity Math_sin s b) rng (zeroGrid n))
    as (st & -> & Hst).
  { split; [apply square_zeroGrid|apply binary_zeroGrid]. }
  simpl. eauto.
Qed.
End NoiseFacts.

(** ** Counting neighbours *)

Lemma sum_list_with_ext' {A : Type} (f h : A → nat) (l : list A) :
  (∀ a, a ∈ l → f a = h a) → sum_list_with f l = sum_list_with h l.
Proof.
  induction l as [|a l IH]; intros Hfh; simpl; [done|].
  rewrite Hfh by left. rewrite IH; [done|]. intros b Hb. apply Hfh. by right.
Qed.

Lemma sum_list_with_zero {A : Type} (f : A → nat) (l : list A) :
  (∀ a, a ∈ l → f a = 0) → sum_list_with f l = 0.
Proof.
  induction l as [|a l IH]; intros Hf; simpl; [done|].
  rewrite Hf by left. rewrite IH; [done|]. intros b Hb. apply Hf. by right.
Qed.

(** A sum over [0 .. n-1] of a function that vanishes away from [y-1], [y]
    and [y+1] has at most three terms. *)
Lemma window_sum (n y : nat) (F : nat → nat) :
  sum_list_with (λ i, if decide (i ≤ y + 1 ∧ y ≤ i + 1) then F i else 0) (upto n)
  = (if decide (1 ≤ y ∧ y - 1 < n) then F (y - 1) else 0)
    + (if decide (y < n) then F y else 0)
    + (if decide (y + 1 < n) then F (y + 1) else 0).
Proof.
  unfold upto. induction n as [|n IH].
  - simpl. repeat case_decide; lia.
  - rewrite seq_S, sum_list_with_app, IH. simpl.
    repeat case_decide; try lia;
      first [ replace n with (y + 1) by lia
            | replace n with y by lia
            | replace n with (y - 1) by lia ]; lia.
Qed.

Lemma adjacent_split (y x y' x' : nat) :
  adjacent y x y' x' =
  bool_decide (y' ≤ y + 1 ∧ y ≤ y' + 1) &&
  (bool_decide (x' ≤ x + 1 ∧ x ≤ x' + 1) && bool_decide (y' ≠ y ∨ x' ≠ x)).
Proof.
  unfold adjacent. repeat case_bool_decide; simpl; try done;
    try (exfalso; intuition congruence).
  all: exfalso; destruct (decide (y' = y)), (decide (x' = x)); intuition congruence.
Qed.

(** The neighbour count of the specification, as at most eight terms. *)
Lemma filledNeighbors_terms (n : nat) (g : Grid) (y x : nat) :
  y < n → x < n →
  let t (c1 c2 : bool) (y' x' : nat) : nat :=
    if c1 && c2 && filledAt g y' x' then 1 else 0 in
  let up := bool_decide (1 ≤ y) in
  let down := bool_decide (y + 1 < n) in
  let left := bool_decide (1 ≤ x) in
  let right := bool_decide (x + 1 < n) in
  filledNeighbors n g y x =
    t up left (y - 1) (x - 1) + t up true (y - 1) x + t up right (y - 1) (x + 1)
    + t true left y (x - 1) + t true right y (x + 1)
    + t down left (y + 1) (x - 1) + t down true (y + 1) x
    + t down right (y + 1) (x + 1).
Proof.
  intros Hy Hx. cbv zeta. unfold filledNeighbors.
  rewrite (sum_list_with_ext' _
    (λ y', if decide (y' ≤ y + 1 ∧ y ≤ y' + 1)
           then sum_list_with (λ x',
                  if decide (x' ≤ x + 1 ∧ x ≤ x' + 1)
                  then (if bool_decide (y' ≠ y ∨ x' ≠ x) && filledAt g y' x'
                        then 1 else 0)
                  else 0) (upto n)
           else 0)).
  2:{ intros y' _. case_decide as Hn.
      - apply sum_list_with_ext'. intros x' _. rewrite adjacent_split.
        rewrite (bool_decide_eq_true_2 _ Hn). simpl.
        case_decide as Hm; [by rewrite (bool_decide_eq_true_2 _ Hm)|
                            by rewrite (bool_decide_eq_false_2 _ Hm)].
      - apply sum_list_with_zero. intros x' _. rewrite adjacent_split.
        by rewrite (bool_decide_eq_false_2 _ Hn). }
  rewrite window_sum. rewrite !window_sum.
  destruct (decide (1 ≤ y)), (decide (y + 1 < n)),
           (decide (1 ≤ x)), (decide (x + 1 < n)).
  all: repeat first [ rewrite decide_True by lia | rewrite decide_False by lia
                    | rewrite bool_decide_eq_true_2 by lia
                    | rewrite bool_decide_eq_false_2 by lia ].
  all: simpl; lia.
Qed.

Lemma of_nat_indicator (b : bool) :
  Z.of_nat (if b then 1 else 0) = if b then 1%Z else 0%Z.
Proof. by destruct b. Qed.

(** One probe adds one exactly when the probed position is inside the grid
    and filled. *)
Lemma neighborStep_spec (n : nat) (g : Grid) (y x : nat) (dy dx k : Z) :
  square n g → (dy ≠ 0 ∨ dx ≠ 0)%Z →
  neighborStep g n y x dy dx k =
  Some (k + Z.of_nat
    (if bool_decide (0 ≤ Z.of_nat y + dy < Z.of_nat n
                     ∧ 0 ≤ Z.of_nat x + dx < Z.of_nat n)%Z
        && filledAt g (Z.to_nat (Z.of_nat y + dy)) (Z.to_nat (Z.of_nat x + dx))
     then 1 else 0))%Z.
Proof.
  intros [Hl Hr] Hne. unfold neighborStep.
  destruct ((dy =? 0)%Z && (dx =? 0)%Z) eqn:Hc.
  { apply andb_true_iff in Hc as [?%Z.eqb_eq ?%Z.eqb_eq]. lia. }
  case_bool_decide as Hin.
  - replace ((0 <=? Z.of_nat y + dy)%Z && (Z.of_nat y + dy <? Z.of_nat n)%Z
             && (0 <=? Z.of_nat x + dx)%Z && (Z.of_nat x + dx <? Z.of_nat n)%Z)
      with true.
    2:{ symmetry. rewrite !andb_true_iff.
        rewrite !Z.leb_le, !Z.ltb_lt. lia. }
    rewrite index2_cell by lia. simpl. unfold strict_eq, filledAt.
    rewrite of_nat_indicator. case_bool_decide; f_equal; lia.
  - replace ((0 <=? Z.of_nat y + dy)%Z && (Z.of_nat y + dy <? Z.of_nat n)%Z
             && (0 <=? Z.of_nat x + dx)%Z && (Z.of_nat x + dx <? Z.of_nat n)%Z)
      with false.
    2:{ symmetry. apply not_true_iff_false. rewrite !andb_true_iff.
        rewrite !Z.leb_le, !Z.ltb_lt. lia. }
    simpl. f_equal. lia.
Qed.

Lemma neighborStep_center (n : nat) (g : Grid) (y x : nat) (k : Z) :
  neighborStep g n y x 0 0 k = Some k.
Proof. done. Qed.

(** The loops of [generatePuzzle] count the neighbours of the
    specification. *)
Lemma countNeighbors_spec (n : nat) (g : Grid) (y x : nat) :
  square n g → y < n → x < n →
  countNeighbors g n y x = Some (Z.of_nat (filledNeighbors n g y x)).
Proof.
  intros Hsq Hy Hx. rewrite filledNeighbors_terms by done. cbv zeta.
  unfold countNeighbors. cbn [for_each].
  repeat (first [ rewrite neighborStep_center
                | rewrite (neighborStep_spec n) by (done || lia) ];
          cbn [mbind option_bind]).
  f_equal.
  replace (Z.to_nat (Z.of_nat y + -1)) with (y - 1) by lia.
  replace (Z.to_nat (Z.of_nat y + 0)) with y by lia.
  replace (Z.to_nat (Z.of_nat y + 1)) with (y + 1) by lia.
  replace (Z.to_nat (Z.of_nat x + -1)) with (x - 1) by lia.
  replace (Z.to_nat (Z.of_nat x + 0)) with x by lia.
  replace (Z.to_nat (Z.of_nat x + 1)) with (x + 1) by lia.
  destruct (decide (1 ≤ y)), (decide (y + 1 < n)),
           (decide (1 ≤ x)), (decide (x + 1 < n)).
  all: repeat first [ rewrite bool_decide_eq_true_2 by lia
                    | rewrite bool_decide_eq_false_2 by lia ].
  all: cbn [andb]; lia.
Qed.

(** ** The smoothing pass *)

Lemma smoothCell_spec (n : nat) (g newGrid : Grid) (y x : nat) :
  square n g → y < n → x < n →
  smoothCell g n y x newGrid =
  store newGrid y x (smoothRule (filledAt g y x) (filledNeighbors n g y x)).
Proof.
  intros Hsq Hy Hx. unfold smoothCell.
  rewrite countNeighbors_spec by done. cbn [mbind option_bind].
  rewrite index2_cell by (destruct Hsq; lia). cbn [mbind option_bind].
  unfold strict_eq, filledAt, smoothRule.
  case_bool_decide; case_decide;
    match goal with |- context [(?a <=? ?b)%Z] => destruct (Z.leb_spec0 a b) end;
    (done || lia).
Qed.

Lemma copyCell_spec (n : nat) (f : nat → nat → Z) (g : Grid) (y x : nat) :
  y < n → x < n →
  copyCell (tabulate n f) y x g = store g y x (f y x).
Proof.
  intros Hy Hx. unfold copyCell.
  rewrite index2_cell by (destruct (square_tabulate n f); lia).
  cbn [mbind option_bind]. by rewrite cell_tabulate.
Qed.

Lemma smoothIteration_spec (n : nat) (g : Grid) :
  square n g → smoothIteration n g = Some (smoothSpec n g).
Proof.
  intros Hsq. unfold smoothIteration, smoothSpec. cbv zeta.
  rewrite (fill_loop n _
    (λ y x, smoothRule (filledAt g y x) (filledNeighbors n g y x)) g Hsq).
  2:{ intros. by apply smoothCell_spec. }
  cbn [mbind option_bind].
  apply (fill_loop n _ _ g Hsq). intros. by apply copyCell_spec.
Qed.

Lemma smoothSpec_cell (n : nat) (g : Grid) (y x : nat) :
  y < n → x < n →
  cell (smoothSpec n g) y x
  = Some (smoothRule (filledAt g y x) (filledNeighbors n g y x)).
Proof. intros Hy Hx. unfold smoothSpec. by rewrite cell_tabulate. Qed.

(** A cell has at most eight neighbours. *)
Lemma filledNeighbors_le_8 (n : nat) (g : Grid) (y x : nat) :
  y < n → x < n → filledNeighbors n g y x ≤ 8.
Proof.
  intros Hy Hx. rewrite filledNeighbors_terms by done. cbv zeta.
  repeat match goal with
         | |- context [if ?b then 1 else 0] => destruct b
         end; lia.
Qed.

Lemma smoothSpec_solutionGrid (n : nat) (g : Grid) : solutionGrid n (smoothSpec n g).
Proof.
  split; [apply square_tabulate|].
  intros y x c Hc.
  destruct (cell_bounds n _ y x c (square_tabulate n _) Hc) as [Hy Hx].
  unfold smoothSpec in Hc. rewrite cell_tabulate in Hc by done.
  injection Hc as <-. unfold smoothRule. repeat case_match; auto.
Qed.

Lemma smoothingPass_on (n : nat) (d : float) (g : Grid) :
  square n g → smoothingApplies d = true →
  smoothingPass n d g = Some (smoothSpec n (smoothSpec n g)).
Proof.
  intros Hsq Hd. unfold smoothingPass. rewrite Hd.
  unfold iterations, upto. cbn [seq for_each].
  rewrite smoothIteration_spec by done. cbn [mbind option_bind].
  rewrite smoothIteration_spec by apply smoothSpec_solutionGrid. done.
Qed.

Lemma smoothingPass_off (n : nat) (d : float) (g : Grid) :
  smoothingApplies d = false → smoothingPass n d g = Some g.
Proof. intros Hd. unfold smoothingPass. by rewrite Hd. Qed.

Lemma smoothingPass_ok (n : nat) (d : float) (g : Grid) :
  solutionGrid n g →
  ∃ g', smoothingPass n d g = Some g' ∧ solutionGrid n g'.
Proof.
  intros Hg. destruct (smoothingApplies d) eqn:Hd.
  - rewrite smoothingPass_on by (done || apply Hg).
    eexists. split; [done|]. apply smoothSpec_solutionGrid.
  - rewrite smoothingPass_off by done. eauto.
Qed.

Lemma midRange_applies (d : float) : midRange d ↔ smoothingApplies d = true.
Proof. unfold midRange, smoothingApplies. by rewrite andb_true_iff. Qed.

(** ** Counting filled cells *)

Lemma foldl_add_acc (acc : Z) (row : list Z) :
  foldl (λ count c, (count + c)%Z) acc row
  = (acc + foldl (λ count c, (count + c)%Z) 0 row)%Z.
Proof.
  revert acc. induction row as [|c row IH]; intros acc; simpl; [lia|].
  rewrite IH, (IH (0 + c)%Z). lia.
Qed.

Lemma filledCount_cons (row : list Z) (g : Grid) :
  filledCount (row :: g)
  = (foldl (λ count c, (count + c)%Z) 0 row + filledCount g)%Z.
Proof.
  unfold filledCount. simpl.
  generalize (foldl (λ count c : Z, (count + c)%Z) 0%Z row). intros a.
  revert a. induction g as [|r g IH]; intros a; simpl; [lia|].
  rewrite foldl_add_acc, IH, (foldl_add_acc 0), (IH (0 + _)%Z). lia.
Qed.

Lemma rowBinary_cons (c : Z) (row : list Z) :
  rowBinary (c :: row) → (c = 0 ∨ c = 1)%Z ∧ rowBinary row.
Proof.
  intros H. split; [apply (H 0 c); done|]. intros x c' Hx. by apply (H (S x)).
Qed.

Lemma rowSum_bounds (row : list Z) :
  rowBinary row →
  (0 ≤ foldl (λ count c, (count + c)%Z) 0 row ≤ Z.of_nat (length row))%Z.
Proof.
  induction row as [|c row IH]; intros Hb; simpl; [lia|].
  apply rowBinary_cons in Hb as [Hc Hb]. rewrite foldl_add_acc.
  specialize (IH Hb). lia.
Qed.

Lemma rowSum_zero (row : list Z) (x : nat) (c : Z) :
  rowBinary row → foldl (λ count c, (count + c)%Z) 0%Z row = 0%Z →
  row !! x = Some c → c = 0%Z.
Proof.
  revert x. induction row as [|c' row IH]; intros x Hb Hs Hx; [done|].
  apply rowBinary_cons in Hb as [Hc Hb]. simpl in Hs.
  rewrite foldl_add_acc in Hs. pose proof (rowSum_bounds row Hb).
  destruct x as [|x]; simpl in Hx.
  - injection Hx as <-. lia.
  - apply (IH x); [done|lia|done].
Qed.

Lemma rowSum_full (row : list Z) (x : nat) (c : Z) :
  rowBinary row →
  foldl (λ count c, (count + c)%Z) 0%Z row = Z.of_nat (length row) →
  row !! x = Some c → c = 1%Z.
Proof.
  revert x. induction row as [|c' row IH]; intros x Hb Hs Hx; [done|].
  apply rowBinary_cons in Hb as [Hc Hb]. simpl in Hs.
  rewrite foldl_add_acc in Hs. pose proof (rowSum_bounds row Hb).
  destruct x as [|x]; simpl in Hx.
  - injection Hx as <-. lia.
  - apply (IH x); [done|lia|done].
Qed.

Lemma rowSum_pos (row : list Z) :
  rowBinary row → (0 < foldl (λ count c, (count + c)%Z) 0 row)%Z →
  ∃ x, row !! x = Some 1%Z.
Proof.
  induction row as [|c row IH]; intros Hb Hs; simpl in Hs; [lia|].
  apply rowBinary_cons in Hb as [Hc Hb]. rewrite foldl_add_acc in Hs.
  destruct Hc as [->| ->].
  - destruct IH as [x Hx]; [done|lia|]. by exists (S x).
  - by exists 0.
Qed.

Lemma rowSum_short (row : list Z) :
  rowBinary row →
  (foldl (λ count c, (count + c)%Z) 0 row < Z.of_nat (length row))%Z →
  ∃ x, row !! x = Some 0%Z.
Proof.
  induction row as [|c row IH]; intros Hb Hs; simpl in Hs; [lia|].
  apply rowBinary_cons in Hb as [Hc Hb]. rewrite foldl_add_acc in Hs.
  destruct Hc as [->| ->].
  - by exists 0.
  - destruct IH as [x Hx]; [done|lia|]. by exists (S x).
Qed.

Lemma gridRows_cons (m : nat) (row : list Z) (g : Grid) :
  gridRows m (row :: g) → (length row = m ∧ rowBinary row) ∧ gridRows m g.
Proof.
  intros H. split; [by apply (H 0)|]. intros y r Hy. by apply (H (S y)).
Qed.

Lemma solutionGrid_rows (n : nat) (g : Grid) : solutionGrid n g → gridRows n g.
Proof.
  intros [[Hl Hr] Hb] y row Hrow. split; [by eapply Hr|].
  intros x c Hx. apply (Hb y x c). unfold cell. by rewrite Hrow.
Qed.

Lemma filledCount_bounds (m : nat) (g : Grid) :
  gridRows m g → (0 ≤ filledCount g ≤ Z.of_nat (length g) * Z.of_nat m)%Z.
Proof.
  induction g as [|row g IH]; intros Hg; [unfold filledCount; simpl; lia|].
  apply gridRows_cons in Hg as [[Hlen Hb] Hg]. rewrite filledCount_cons.
  pose proof (rowSum_bounds row Hb). specialize (IH Hg). simpl length. nia.
Qed.

Lemma filledCount_zero (m : nat) (g : Grid) (y x : nat) (c : Z) :
  gridRows m g → filledCount g = 0%Z → cell g y x = Some c → c = 0%Z.
Proof.
  revert y. induction g as [|row g IH]; intros y Hg Hs Hc; [done|].
  apply gridRows_cons in Hg as [[Hlen Hb] Hg]. rewrite filledCount_cons in Hs.
  pose proof (rowSum_bounds row Hb). pose proof (filledCount_bounds m g Hg).
  destruct y as [|y].
  - unfold cell in Hc. simpl in Hc. apply (rowSum_zero row x c); [done|lia|done].
  - apply (IH y); [done|lia|done].
Qed.

Lemma filledCount_full (m : nat) (g : Grid) (y x : nat) (c : Z) :
  gridRows m g → filledCount g = (Z.of_nat (length g) * Z.of_nat m)%Z →
  cell g y x = Some c → c = 1%Z.
Proof.
  revert y. induction g as [|row g IH]; intros y Hg Hs Hc; [done|].
  apply gridRows_cons in Hg as [[Hlen Hb] Hg]. rewrite filledCount_cons in Hs.
  pose proof (rowSum_bounds row Hb). pose proof (filledCount_bounds m g Hg).
  simpl length in Hs.
  destruct y as [|y].
  - unfold cell in Hc. simpl in Hc. apply (rowSum_full row x c); [done|nia|done].
  - apply (IH y); [done|nia|done].
Qed.

Lemma filledCount_pos (m : nat) (g : Grid) :
  gridRows m g → (0 < filledCount g)%Z → ∃ y x, cell g y x = Some 1%Z.
Proof.
  induction g as [|row g IH]; intros Hg Hs; [unfold filledCount in Hs; simpl in Hs; lia|].
  apply gridRows_cons in Hg as [[Hlen Hb] Hg]. rewrite filledCount_cons in Hs.
  destruct (decide (0 < rowSum row)%Z) as [Hrow|Hrow].
  - destruct (rowSum_pos row Hb Hrow) as [x Hx]. by exists 0, x.
  - destruct IH as (y & x & Hc); [done|lia|]. by exists (S y), x.
Qed.

Lemma filledCount_short (m : nat) (g : Grid) :
  gridRows m g → (filledCount g < Z.of_nat (length g) * Z.of_nat m)%Z →
  ∃ y x, cell g y x = Some 0%Z.
Proof.
  induction g as [|row g IH]; intros Hg Hs; [unfold filledCount in Hs; simpl in Hs; lia|].
  apply gridRows_cons in Hg as [[Hlen Hb] Hg]. rewrite filledCount_cons in Hs.
  simpl length in Hs.
  destruct (decide (rowSum row < Z.of_nat (length row))%Z) as [Hrow|Hrow].
  - destruct (rowSum_short row Hb Hrow) as [x Hx]. by exists 0, x.
  - destruct IH as (y & x & Hc); [done|nia|]. by exists (S y), x.
Qed.


(** ** The safety check *)

Lemma safetyCheck_cases (n : nat) (g : Grid) :
  1 ≤ n → solutionGrid n g →
  ∃ g', safetyCheck n g = Some g' ∧ solutionGrid n g' ∧
    ((filledCount g = 0%Z ∧ forcedAt g g' (n / 2) (n / 2) 1)
     ∨ (filledCount g = (Z.of_nat n * Z.of_nat n)%Z ∧ forcedAt g g' 0 0 0)
     ∨ ((0 < filledCount g < Z.of_nat n * Z.of_nat n)%Z ∧ g' = g)).
Proof.
  intros Hn Hg. pose proof Hg as [Hsq Hbin].
  pose proof (filledCount_bounds n g (solutionGrid_rows n g Hg)) as Hb.
  replace (length g) with n in Hb by (by destruct Hsq).
  assert (n / 2 < n) as Hmid by (apply Nat.div_lt; lia).
  unfold safetyCheck. cbv zeta.
  destruct (Z.eqb_spec (filledCount g) 0) as [H0|H0].
  - destruct (store_spec n g (n / 2) (n / 2) 1) as (g' & Hst & Hsq' & Hc & Ho);
      [done..|].
    rewrite Hst. cbn [mbind option_bind].
    destruct (Z.eqb_spec (filledCount g) (Z.of_nat n * Z.of_nat n)) as [Hf|Hf]; [nia|].
    exists g'. split; [done|]. split; [|by left].
    apply (store_binary n g _ (n / 2) (n / 2) 1); auto.
  - cbn [mbind option_bind].
    destruct (Z.eqb_spec (filledCount g) (Z.of_nat n * Z.of_nat n)) as [Hf|Hf].
    + destruct (store_spec n g 0 0 0) as (g' & Hst & Hsq' & Hc & Ho);
        [done|lia|lia|].
      rewrite Hst. exists g'. split; [done|]. split; [|right; by left].
      apply (store_binary n g _ 0 0 0); auto; lia.
    + exists g. split; [done|]. split; [done|]. right; right. split; [lia|done].
Qed.

Section GeneratorFacts.
Variable Math_sin : float → float.

Lemma preCorrection_ok (s : float) (n : nat) (b : DifficultySettings) :
  ∃ g, preCorrection Math_sin s n b = Some g ∧ solutionGrid n g.
Proof.
  unfold preCorrection.
  destruct (rawNoise_ok Math_sin s n b) as (g0 & -> & Hg0).
  cbn [mbind option_bind]. by apply smoothingPass_ok.
Qed.

(** The stages are the run of [generatePuzzle] cut at the safety check. *)
Lemma generatePuzzle_stages (s : float) (n : nat) (b : DifficultySettings) :
  generatePuzzle Math_sin s n b
  = (g ← preCorrection Math_sin s n b;
     g ← safetyCheck n g;
     Some {| title := PatternTitle s; grid := g; size := n; seed := s |}).
Proof.
  unfold generatePuzzle, preCorrection, rawNoise, targetDensity.
  destruct (Random_next Math_sin (mkRandom s)) as [u rng].
  by destruct (noisePass Math_sin n _ (rng, zeroGrid n)) as [st|].
Qed.

Lemma generatePuzzle_unfold (s : float) (n : nat) (b : DifficultySettings)
    (g1 g2 : Grid) :
  preCorrection Math_sin s n b = Some g1 → safetyCheck n g1 = Some g2 →
  generatePuzzle Math_sin s n b
  = Some {| title := PatternTitle s; grid := g2; size := n; seed := s |}.
Proof.
  intros H1 H2. rewrite generatePuzzle_stages, H1. simpl. by rewrite H2.
Qed.

Lemma generatePuzzle_ok (s : float) (n : nat) (b : DifficultySettings) :
  1 ≤ n →
  ∃ p, generatePuzzle Math_sin s n b = Some p ∧ solutionGrid n (grid p)
       ∧ size p = n ∧ seed p = s ∧ title p = PatternTitle s.
Proof.
  intros Hn. destruct (preCorrection_ok s n b) as (g1 & H1 & Hg1).
  destruct (safetyCheck_cases n g1 Hn Hg1) as (g2 & H2 & Hg2 & _).
  rewrite (generatePuzzle_unfold s n b g1 g2 H1 H2). eexists. by split.
Qed.

Lemma generatePuzzle_band (s : float) (n : nat) (b b' : DifficultySettings) :
  minDensity b = minDensity b' → maxDensity b = maxDensity b' →
  generatePuzzle Math_sin s n b = generatePuzzle Math_sin s n b'.
Proof.
  intros Hmin Hmax.
  unfold generatePuzzle. by rewrite Hmin, Hmax.
Qed.

(** C1. Two calls with the same seed, the same size and the same density
    interval return the same puzzle, hence grids with the same value at
    every position; for a positive size both calls do return. *)
Theorem generatePuzzle_deterministic (s : float) (n : nat)
    (band band' : DifficultySettings) :
  minDensity band = minDensity band' → maxDensity band = maxDensity band' →
  generatePuzzle Math_sin s n band = generatePuzzle Math_sin s n band'
  ∧ (1 ≤ n → ∃ p p', generatePuzzle Math_sin s n band = Some p
                    ∧ generatePuzzle Math_sin s n band' = Some p'
                    ∧ ∀ y x, cell (grid p) y x = cell (grid p') y x).
Proof.
  intros Hmin Hmax. split; [by apply generatePuzzle_band|].
  intros Hn. destruct (generatePuzzle_ok s n band Hn) as (p & Hp & _).
  exists p, p. by rewrite <- (generatePuzzle_band s n band band').
Qed.

(** C2. For a size of at least 2 the returned grid has a filled cell and
    an empty cell, whatever the seed and the band. *)
Theorem generatePuzzle_nondegenerate (s : float) (n : nat)
    (band : DifficultySettings) :
  2 ≤ n →
  ∃ p, generatePuzzle Math_sin s n band = Some p
    ∧ solutionGrid n (grid p)
    ∧ (∃ y x, cell (grid p) y x = Some 1%Z)
    ∧ (∃ y x, cell (grid p) y x = Some 0%Z).
Proof.
  intros Hn. destruct (preCorrection_ok s n band) as (g1 & H1 & Hg1).
  destruct (safetyCheck_cases n g1) as (g2 & H2 & Hg2 & Hcases); [lia|done|].
  rewrite (generatePuzzle_unfold s n band g1 g2 H1 H2).
  eexists. split; [done|]. simpl. split; [done|].
  pose proof (solutionGrid_rows n g1 Hg1) as Hrows.
  assert (length g1 = n) as Hlen by (by destruct Hg1 as [[? _] _]).
  assert (1 ≤ n / 2) as Hmid by (apply Nat.div_le_lower_bound; lia).
  destruct (square_cell n g1 0 0) as [c00 H00]; [apply Hg1|lia|lia|].
  destruct (square_cell n g1 1 1) as [c11 H11]; [apply Hg1|lia|lia|].
  remember (n / 2) as m eqn:Hm.
  destruct Hcases as [[H0 [Hc Ho]]|[[Hf [Hc Ho]]|[Hmid' ->]]].
  - split; [by exists m, m|]. exists 0, 0.
    rewrite Ho by (intros [= ? ?]; lia). rewrite H00. f_equal.
    by apply (filledCount_zero n g1 0 0).
  - split; [|by exists 0, 0]. exists 1, 1.
    rewrite Ho by (intros [= ? ?]; lia). rewrite H11. f_equal.
    apply (filledCount_full n g1 1 1); [done|by rewrite Hlen|done].
  - split.
    + apply (filledCount_pos n); [done|lia].
    + apply (filledCount_short n); [done|rewrite Hlen; lia].
Qed.

(** C6. When the drawn density is strictly between 0.3 and 0.8, the
    loops of one iteration compute the update of the specification from the
    pre-iteration grid, the grid handed to the safety check is the raw noise
    after exactly two such updates, and [generatePuzzle] returns the safety
    check of that grid. *)
Theorem smoothing_two_iterations (s : float) (n : nat)
    (band : DifficultySettings) :
  midRange (targetDensity Math_sin s band) →
  ∃ g0, rawNoise Math_sin s n band = Some g0
    ∧ smoothIteration n g0 = Some (smoothSpec n g0)
    ∧ smoothIteration n (smoothSpec n g0) = Some (smoothSpec n (smoothSpec n g0))
    ∧ smoothingPass n (targetDensity Math_sin s band) g0
      = Some (smoothSpec n (smoothSpec n g0))
    ∧ preCorrection Math_sin s n band = Some (smoothSpec n (smoothSpec n g0))
    ∧ generatePuzzle Math_sin s n band
      = (g ← safetyCheck n (smoothSpec n (smoothSpec n g0));
         Some {| title := PatternTitle s; grid := g; size := n; seed := s |})
    ∧ (1 ≤ n →
       ∃ p, generatePuzzle Math_sin s n band = Some p
          ∧ safetyCheck n (smoothSpec n (smoothSpec n g0)) = Some (grid p)).
Proof.
  intros Hmid%midRange_applies.
  destruct (rawNoise_ok Math_sin s n band) as (g0 & H0 & Hg0).
  exists g0. split; [done|].
  split; [apply smoothIteration_spec, Hg0|].
  split; [apply smoothIteration_spec, smoothSpec_solutionGrid|].
  assert (smoothingPass n (targetDensity Math_sin s band) g0
          = Some (smoothSpec n (smoothSpec n g0))) as Hpass
    by (apply smoothingPass_on; [apply Hg0|done]).
  split; [done|].
  assert (preCorrection Math_sin s n band = Some (smoothSpec n (smoothSpec n g0)))
    as Hpre by (unfold preCorrection; by rewrite H0).
  split; [done|].
  split; [by rewrite generatePuzzle_stages, Hpre|].
  intros Hn.
  destruct (safetyCheck_cases n (smoothSpec n (smoothSpec n g0)) Hn
              (smoothSpec_solutionGrid n _)) as (g2 & H2 & _).
  eexists. split; [exact (generatePuzzle_unfold s n band _ g2 Hpre H2)|]. done.
Qed.

(** C7. When the drawn density is not strictly between 0.3 and 0.8, the
    safety check starts from the raw noise grid, and the returned grid is
    that grid with at most one cell forced. *)
Theorem extreme_density_keeps_noise (s : float) (n : nat)
    (band : DifficultySettings) :
  1 ≤ n → ¬ midRange (targetDensity Math_sin s band) →
  ∃ g0 p, rawNoise Math_sin s n band = Some g0
    ∧ preCorrection Math_sin s n band = Some g0
    ∧ generatePuzzle Math_sin s n band = Some p
    ∧ square n (grid p)
    ∧ (grid p = g0
       ∨ forcedAt g0 (grid p) (n / 2) (n / 2) 1
       ∨ forcedAt g0 (grid p) 0 0 0).
Proof.
  intros Hn Hd. rewrite midRange_applies in Hd. apply not_true_is_false in Hd.
  destruct (rawNoise_ok Math_sin s n band) as (g0 & H0 & Hg0).
  assert (preCorrection Math_sin s n band = Some g0) as H1.
  { unfold preCorrection. rewrite H0. cbn [mbind option_bind].
    by apply smoothingPass_off. }
  destruct (safetyCheck_cases n g0 Hn Hg0) as (g2 & H2 & Hg2 & Hcases).
  exists g0. eexists. split; [done|]. split; [done|].
  split; [by apply (generatePuzzle_unfold s n band g0 g2)|]. simpl.
  split; [apply Hg2|].
  destruct Hcases as [[_ ?]|[[_ ?]|[_ ->]]]; auto.
Qed.

(** C10. For a positive size the two conditions of the safety check
    exclude each other, and the returned grid is the grid before the check
    with the centre forced to 1 (no filled cell), or with cell (0,0) forced
    to 0 (every cell filled), or unchanged. *)
Theorem correction_changes_one_cell (s : float) (n : nat)
    (band : DifficultySettings) :
  1 ≤ n →
  ∃ g1 p, preCorrection Math_sin s n band = Some g1
    ∧ generatePuzzle Math_sin s n band = Some p
    ∧ square n g1 ∧ square n (grid p)
    ∧ ¬ (filledCount g1 = 0%Z ∧ filledCount g1 = (Z.of_nat n * Z.of_nat n)%Z)
    ∧ ((filledCount g1 = 0%Z ∧ forcedAt g1 (grid p) (n / 2) (n / 2) 1)
       ∨ (filledCount g1 = (Z.of_nat n * Z.of_nat n)%Z ∧ forcedAt g1 (grid p) 0 0 0)
       ∨ (filledCount g1 ≠ 0%Z ∧ filledCount g1 ≠ (Z.of_nat n * Z.of_nat n)%Z
          ∧ grid p = g1)).
Proof.
  intros Hn. destruct (preCorrection_ok s n band) as (g1 & H1 & Hg1).
  destruct (safetyCheck_cases n g1 Hn Hg1) as (g2 & H2 & Hg2 & Hcases).
  exists g1. eexists. split; [done|].
  split; [by apply (generatePuzzle_unfold s n band g1 g2)|]. simpl.
  split; [apply Hg1|]. split; [apply Hg2|]. split; [nia|].
  destruct Hcases as [?|[?|[? ?]]]; [by left|right; by left|].
  right; right. split; [lia|]. split; [lia|done].
Qed.

(** C8. With size 1 the grid before the safety check is a single cell of
    0 or 1, exactly one of the two conditions of the check holds for it, and
    the returned grid is the single negated cell; it is [[1]] whenever the
    smoothing pass ran. *)
Theorem single_cell_grid (s : float) (band : DifficultySettings) :
  ∃ v p, preCorrection Math_sin s 1 band = Some [[v]]
    ∧ (v = 0 ∨ v = 1)%Z
    ∧ ((filledCount [[v]] = 0%Z ∧ filledCount [[v]] ≠ (1 * 1)%Z)
       ∨ (filledCount [[v]] ≠ 0%Z ∧ filledCount [[v]] = (1 * 1)%Z))
    ∧ generatePuzzle Math_sin s 1 band = Some p
    ∧ grid p = [[(1 - v)%Z]]
    ∧ (smoothingApplies (targetDensity Math_sin s band) = true → grid p = [[1%Z]]).
Proof.
  destruct (rawNoise_ok Math_sin s 1 band) as (g0 & H0 & Hg0).
  assert (∀ g, solutionGrid 1 g → ∃ v, g = [[v]] ∧ (v = 0 ∨ v = 1)%Z) as Hone.
  { intros g [[Hl Hr] Hb]. destruct g as [|row [|]]; try done.
    specialize (Hr 0 row eq_refl). destruct row as [|v [|]]; try done.
    exists v. split; [done|]. by apply (Hb 0 0 v). }
  destruct (smoothingApplies (targetDensity Math_sin s band)) eqn:Hd.
  - assert (preCorrection Math_sin s 1 band = Some [[0%Z]]) as H1.
    { unfold preCorrection. rewrite H0. cbn [mbind option_bind].
      rewrite smoothingPass_on by (done || apply Hg0).
      destruct (Hone g0 Hg0) as (v & -> & [-> | ->]); done. }
    exists 0%Z. eexists. split; [done|]. split; [by left|].
    split; [by left|].
    split; [by apply (generatePuzzle_unfold s 1 band [[0%Z]] [[1%Z]])|]. done.
  - assert (preCorrection Math_sin s 1 band = Some g0) as H1.
    { unfold preCorrection. rewrite H0. cbn [mbind option_bind].
      by apply smoothingPass_off. }
    destruct (Hone g0 Hg0) as (v & -> & Hv).
    exists v. eexists. split; [done|]. split; [done|].
    split; [destruct Hv as [-> | ->]; [by left|by right]|].
    split; [|split; [|done]].
    + apply (generatePuzzle_unfold s 1 band [[v]] [[(1 - v)%Z]]); [done|].
      destruct Hv as [-> | ->]; done.
    + done.
Qed.
End GeneratorFacts.

(** ** The evaluator *)

Lemma leavesEarly_seq (probe : nat → option bool) (f : nat → bool) :
  ∀ k a, (∀ i, a ≤ i < a + k → probe i = Some (f i)) →
    ∃ hit, leavesEarly (seq a k) probe = Some hit
         ∧ (hit = false ↔ ∀ i, a ≤ i < a + k → f i = false).
Proof.
  induction k as [|k IH]; intros a Hp; simpl.
  - exists false. split; [done|]. split; [intros; lia|done].
  - rewrite Hp by lia. cbn [mbind option_bind]. destruct (f a) eqn:Hfa.
    + exists true. split; [done|]. split; [done|].
      intros H. rewrite H in Hfa by lia. done.
    + destruct (IH (S a)) as (hit & -> & Hhit); [intros; apply Hp; lia|].
      exists hit. split; [done|]. rewrite Hhit. split.
      * intros H i Hi. destruct (decide (i = a)) as [->|]; [done|]. apply H. lia.
      * intros H i Hi. apply H. lia.
Qed.

Lemma leavesEarly_upto (n : nat) (probe : nat → option bool) (f : nat → bool) :
  (∀ i, i < n → probe i = Some (f i)) →
  ∃ hit, leavesEarly (upto n) probe = Some hit
       ∧ (hit = false ↔ ∀ i, i < n → f i = false).
Proof.
  intros Hp. destruct (leavesEarly_seq probe f n 0) as (hit & H & Hhit).
  { intros i Hi. apply Hp. lia. }
  exists hit. split; [done|]. rewrite Hhit. split; intros H' i Hi; apply H'; lia.
Qed.

Lemma leavesEarly_ext (idx : list nat) (probe probe' : nat → option bool) :
  (∀ i, probe i = probe' i) → leavesEarly idx probe = leavesEarly idx probe'.
Proof. intros H. induction idx as [|i idx IH]; simpl; [done|]. by rewrite H, IH. Qed.

Lemma for_each_ext {I S : Type} (idx : list I) (body body' : I → S → option S) (s : S) :
  (∀ i s, body i s = body' i s) → for_each idx body s = for_each idx body' s.
Proof.
  intros H. revert s. induction idx as [|i idx IH]; intros s; simpl; [done|].
  rewrite H. destruct (body' i s); simpl; [apply IH|done].
Qed.

Lemma probeCell_square (n : nat) (puzzle : PuzzleData)
    (P : list (list CellState)) (r c : nat) :
  square n (grid puzzle) → square n P → r < n →
  probeCell puzzle P r c = Some (mismatch (cell (grid puzzle) r c) (cell P r c)).
Proof.
  intros [Hl _] [Hl' _] Hr. unfold probeCell.
  rewrite !index2_cell by lia. done.
Qed.

Lemma mismatch_cellMatches (s : Z) (p : CellState) :
  (s = 0 ∨ s = 1)%Z → mismatch (Some s) (Some p) = false ↔ cellMatches s p.
Proof.
  intros [-> | ->]; destruct p; unfold cellMatches; compute;
    intuition (congruence || discriminate).
Qed.

Lemma isWin_spec (n : nat) (puzzle : PuzzleData) (P : list (list CellState)) :
  size puzzle = n → square n (grid puzzle) → square n P →
  ∃ b, isWin puzzle P = Some b
     ∧ (b = true ↔ ∀ r c, r < n → c < n →
                     mismatch (cell (grid puzzle) r c) (cell P r c) = false).
Proof.
  intros Hsize HS HP. unfold isWin. rewrite Hsize.
  apply (for_each_upto_inv
    (λ k (b : bool), b = true ↔ ∀ r c, r < k → c < n →
       mismatch (cell (grid puzzle) r c) (cell P r c) = false)).
  - split; [intros; lia|done].
  - intros r b Hr Hb.
    destruct (leavesEarly_upto n (probeCell puzzle P r)
      (λ c, mismatch (cell (grid puzzle) r c) (cell P r c))) as (hit & -> & Hhit).
    { intros c _. by apply (probeCell_square n). }
    cbn [mbind option_bind]. eexists. split; [done|].
    destruct hit.
    + split; [done|]. intros H. 
      assert (true = false) as ?; [|done]. apply Hhit. intros c Hc. apply H; lia.
    + rewrite Hb. split.
      * intros H r' c Hr' Hc. destruct (decide (r' = r)) as [->|].
        -- by apply Hhit.
        -- apply H; lia.
      * intros H r' c Hr' Hc. apply H; lia.
Qed.

Lemma isRowComplete_spec (n : nat) (puzzle : PuzzleData)
    (P : list (list CellState)) (r : nat) :
  size puzzle = n → square n (grid puzzle) → square n P → r < n →
  ∃ b, isRowComplete (Some puzzle) P r = Some b
     ∧ (b = true ↔ ∀ c, c < n →
                     mismatch (cell (grid puzzle) r c) (cell P r c) = false).
Proof.
  intros Hsize HS HP Hr. unfold isRowComplete. rewrite Hsize.
  rewrite decide_False by (destruct HP; lia).
  destruct (leavesEarly_upto n (λ c, probeCell puzzle P r c)
    (λ c, mismatch (cell (grid puzzle) r c) (cell P r c))) as (hit & -> & Hhit).
  { intros c _. by apply (probeCell_square n). }
  cbn [mbind option_bind]. eexists. split; [done|]. rewrite <- Hhit.
  by destruct hit.
Qed.

Lemma isColComplete_spec (n : nat) (puzzle : PuzzleData)
    (P : list (list CellState)) (c : nat) :
  size puzzle = n → square n (grid puzzle) → square n P → c < n →
  ∃ b, isColComplete (Some puzzle) P c = Some b
     ∧ (b = true ↔ ∀ r, r < n →
                     mismatch (cell (grid puzzle) r c) (cell P r c) = false).
Proof.
  intros Hsize HS HP Hc. unfold isColComplete. rewrite Hsize.
  rewrite decide_False by (destruct HP; lia).
  destruct (leavesEarly_upto n (λ r, probeCell puzzle P r c)
    (λ r, mismatch (cell (grid puzzle) r c) (cell P r c))) as (hit & -> & Hhit).
  { intros r Hr. by apply (probeCell_square n). }
  cbn [mbind option_bind]. eexists. split; [done|]. rewrite <- Hhit.
  by destruct hit.
Qed.

(** C3. On a solution grid and a player grid of the same dimensions the win
    check returns a verdict, and the verdict is true exactly when every cell
    matches under the cell match rule. *)
Theorem isWin_iff_all_cells_match (n : nat) (puzzle : PuzzleData)
    (P : list (list CellState)) :
  size puzzle = n → solutionGrid n (grid puzzle) → square n P →
  ∃ b, isWin puzzle P = Some b ∧ (b = true ↔ allCellsMatch n (grid puzzle) P).
Proof.
  intros Hsize [HS Hbin] HP.
  destruct (isWin_spec n puzzle P Hsize HS HP) as (b & Hb & Hiff).
  exists b. split; [done|]. rewrite Hiff. unfold allCellsMatch.
  split; intros H r c Hr Hc.
  - destruct (square_cell n (grid puzzle) r c HS Hr Hc) as [s Hs].
    destruct (square_cell n P r c HP Hr Hc) as [p Hp].
    exists s, p. split; [done|]. split; [done|].
    apply mismatch_cellMatches; [by eapply Hbin|].
    rewrite <- Hs, <- Hp. by apply H.
  - destruct (H r c Hr Hc) as (s & p & -> & -> & Hm).
    apply mismatch_cellMatches; [|done]. destruct Hm as [[-> _]|[-> _]]; auto.
Qed.

(** C4. On grids of the same dimensions the win check, [isRowComplete] at
    every row and [isColComplete] at every column all return a verdict, and
    the win verdict is true exactly when every row and every column is
    complete. *)
Theorem isWin_iff_lines_complete (n : nat) (puzzle : PuzzleData)
    (P : list (list CellState)) :
  size puzzle = n → square n (grid puzzle) → square n P →
  ∃ b, isWin puzzle P = Some b
     ∧ (∀ r, r < n → is_Some (isRowComplete (Some puzzle) P r))
     ∧ (∀ c, c < n → is_Some (isColComplete (Some puzzle) P c))
     ∧ (b = true ↔
          (∀ r, r < n → isRowComplete (Some puzzle) P r = Some true)
          ∧ (∀ c, c < n → isColComplete (Some puzzle) P c = Some true)).
Proof.
  intros Hsize HS HP.
  destruct (isWin_spec n puzzle P Hsize HS HP) as (b & Hb & Hiff).
  exists b. split; [done|].
  split. { intros r Hr. destruct (isRowComplete_spec n puzzle P r) as (? & -> & _); done. }
  split. { intros c Hc. destruct (isColComplete_spec n puzzle P c) as (? & -> & _); done. }
  rewrite Hiff. split.
  - intros H. split.
    + intros r Hr. destruct (isRowComplete_spec n puzzle P r) as (br & -> & Hbr); [done..|].
      f_equal. apply Hbr. intros c Hc. by apply H.
    + intros c Hc. destruct (isColComplete_spec n puzzle P c) as (bc & -> & Hbc); [done..|].
      f_equal. apply Hbc. intros r Hr. by apply H.
  - intros [Hrows _] r c Hr Hc.
    destruct (isRowComplete_spec n puzzle P r) as (br & Hbr' & Hbr); [done..|].
    rewrite (Hrows r Hr) in Hbr'. injection Hbr' as <-. by apply Hbr.
Qed.

(** *** CROSSED and EMPTY *)

Lemma mismatch_relabel (f : CellState → CellState) (target : option Z)
    (current : option CellState) :
  keepsFilled f → mismatch target (f <$> current) = mismatch target current.
Proof.
  intros Hf. unfold mismatch, strict_eq.
  assert (bool_decide (f <$> current = Some FILLED)
          = bool_decide (current = Some FILLED)) as ->; [|done].
  apply bool_decide_ext. destruct current as [c|]; simpl; [|done].
  split; intros [= H]; f_equal; by apply Hf.
Qed.

Lemma probeCell_relabel (f : CellState → CellState) (puzzle : PuzzleData)
    (P : list (list CellState)) (r c : nat) :
  keepsFilled f →
  probeCell puzzle ((λ row : list CellState, f <$> row) <$> P) r c
  = probeCell puzzle P r c.
Proof.
  intros Hf. unfold probeCell, index2.
  destruct (grid puzzle !! r) as [srow|]; simpl; [|done].
  rewrite list_lookup_fmap. destruct (P !! r) as [prow|]; simpl; [|done].
  rewrite list_lookup_fmap. by rewrite mismatch_relabel.
Qed.

Lemma evaluator_relabel (f : CellState → CellState) (P : list (list CellState)) :
  keepsFilled f →
  let P' := (λ row : list CellState, f <$> row) <$> P in
  (∀ puzzle, isWin puzzle P' = isWin puzzle P)
  ∧ (∀ puzzle r, isRowComplete puzzle P' r = isRowComplete puzzle P r)
  ∧ (∀ puzzle c, isColComplete puzzle P' c = isColComplete puzzle P c).
Proof.
  intros Hf P'. split; [|split].
  - intros puzzle. unfold isWin. apply for_each_ext. intros r b.
    rewrite (leavesEarly_ext _ _ (probeCell puzzle P r)); [done|].
    intros c. by apply probeCell_relabel.
  - intros [puzzle|] r; [|done]. unfold isRowComplete, P'.
    rewrite length_fmap. case_decide; [done|].
    rewrite (leavesEarly_ext _ _ (λ c, probeCell puzzle P r c)); [done|].
    intros c. by apply probeCell_relabel.
  - intros [puzzle|] c; [|done]. unfold isColComplete, P'.
    rewrite length_fmap. case_decide; [done|].
    rewrite (leavesEarly_ext _ _ (λ r, probeCell puzzle P r c)); [done|].
    intros r. by apply probeCell_relabel.
Qed.

(** C5. Replacing every CROSSED cell of the player grid by EMPTY, or every
    EMPTY cell by CROSSED, changes no result of the win check, of
    [isRowComplete] or of [isColComplete], at any index and for any puzzle. *)
Theorem crossed_empty_symmetry (P : list (list CellState)) :
  (∀ puzzle, isWin puzzle (uncross P) = isWin puzzle P
           ∧ isWin puzzle (crossOut P) = isWin puzzle P)
  ∧ (∀ puzzle r, isRowComplete puzzle (uncross P) r = isRowComplete puzzle P r
               ∧ isRowComplete puzzle (crossOut P) r = isRowComplete puzzle P r)
  ∧ (∀ puzzle c, isColComplete puzzle (uncross P) c = isColComplete puzzle P c
               ∧ isColComplete puzzle (crossOut P) c = isColComplete puzzle P c).
Proof.
  destruct (evaluator_relabel (λ c, match c with CROSSED => EMPTY | _ => c end) P)
    as (Hw & Hr & Hc); [by intros []|].
  destruct (evaluator_relabel (λ c, match c with EMPTY => CROSSED | _ => c end) P)
    as (Hw' & Hr' & Hc'); [by intros []|].
  split; [|split]; intros; split; auto.
Qed.

(** ** Seeds from text *)

Lemma dropWhile_keeps {A : Type} (f : A → bool) (l : list A) (a : A) :
  a ∈ l → f a = false → a ∈ dropWhile f l.
Proof.
  intros Hin Hfa. induction l as [|b l IH]; [done|]. simpl.
  destruct (f b) eqn:Hfb; [|done].
  apply IH. apply elem_of_cons in Hin as [->|]; [congruence|done].
Qed.

Lemma trim_hasText (s : js_string) : hasText s → 0 < length (trim s) ∧ s ≠ [].
Proof.
  intros (c & Hin & Hc). split.
  - assert (c ∈ trim s) as Ht.
    { unfold trim. rewrite elem_of_reverse. apply dropWhile_keeps; [|done].
      rewrite elem_of_reverse. by apply dropWhile_keeps. }
    destruct (trim s); [by apply elem_of_nil in Ht|simpl; lia].
  - intros ->. by apply elem_of_nil in Hin.
Qed.

Lemma takeWhile_all {A : Type} (f : A → bool) (l : list A) :
  forallb f l = true → takeWhile f l = l.
Proof.
  induction l as [|a l IH]; simpl; [done|].
  intros [-> ?]%andb_true_iff. by rewrite IH.
Qed.

Lemma isDigit_range (c : Z) : isDigit c = true → (48 ≤ c ≤ 57)%Z.
Proof. unfold isDigit. rewrite andb_true_iff, !Z.leb_le. lia. Qed.

Lemma isDigit_not_space (c : Z) : isDigit c = true → isWhiteSpace c = false.
Proof.
  intros H%isDigit_range. unfold isWhiteSpace.
  apply orb_false_iff. split.
  - apply bool_decide_eq_false. rewrite !elem_of_cons, elem_of_nil. lia.
  - apply andb_false_iff. rewrite !Z.leb_gt. lia.
Qed.

Lemma parseInt10_digits (s : js_string) :
  allDigits s = true → parseInt10 s = number_of_Z (digitsValue s).
Proof.
  unfold allDigits. intros [Hne Hall]%andb_true_iff.
  destruct s as [|c s]; [done|]. simpl in Hall.
  apply andb_true_iff in Hall as [Hc Hall].
  unfold parseInt10. simpl dropWhile. rewrite (isDigit_not_space c Hc).
  pose proof (isDigit_range c Hc).
  destruct (Z.eqb_spec c 45); [lia|]. destruct (Z.eqb_spec c 43); [lia|].
  simpl takeWhile. rewrite Hc. by rewrite takeWhile_all.
Qed.

(** A text of digits is never blank. *)
Lemma allDigits_hasText (s : js_string) : allDigits s = true → hasText s.
Proof.
  unfold allDigits. intros [Hne Hall]%andb_true_iff.
  destruct s as [|c s]; [done|]. simpl in Hall.
  apply andb_true_iff in Hall as [Hc Hall].
  exists c. split; [by left|by apply isDigit_not_space].
Qed.

(** C9, as the code has it. For a text with a code unit that is not white
    space: a text of decimal digits only is parsed as the seed; any other
    text is hashed by [stringToSeed]; either way the seed does not depend on
    the random draw, so equal texts give equal seeds. *)
Theorem seed_of_text (text : js_string) (random random' : float) :
  hasText text →
  finalSeed (Some text) random
  = (if allDigits text then number_of_Z (digitsValue text)
     else number_of_Z (Z.abs (foldl hashStep 0%Z text)))
  ∧ finalSeed (Some text) random = finalSeed (Some text) random'.
Proof.
  intros Ht. destruct (trim_hasText text Ht) as [Hlen Hne].
  unfold finalSeed.
  rewrite (bool_decide_eq_false_2 _ Hne), (bool_decide_eq_true_2 _ Hlen).
  simpl. split; [|done].
  destruct (allDigits text) eqn:Hd; [by apply parseInt10_digits|].
  unfold stringToSeed. destruct text; [done|]. done.
Qed.

(** * Concrete runs *)

Lemma squareb_square {A : Type} (n : nat) (g : list (list A)) :
  squareb n g = true → square n g.
Proof.
  unfold squareb. intros [Hl Hr]%andb_true_iff.
  apply bool_decide_eq_true in Hl. split; [done|].
  intros y row Hrow. rewrite forallb_forall in Hr.
  apply (bool_decide_eq_true_1 _), Hr, list_elem_of_In.
  by eapply list_elem_of_lookup_2.
Qed.

Lemma binaryb_binary (g : Grid) : binaryb g = true → binary g.
Proof.
  unfold binaryb, binary, cell. intros Hg y x c Hc.
  destruct (g !! y) as [row|] eqn:Hrow; [|done]. simpl in Hc.
  rewrite forallb_forall in Hg.
  assert (forallb (λ c, bool_decide (c = 0%Z ∨ c = 1%Z)) row = true) as Hr.
  { apply Hg, list_elem_of_In. by eapply list_elem_of_lookup_2. }
  rewrite forallb_forall in Hr.
  apply (bool_decide_eq_true_1 _), Hr, list_elem_of_In.
  by eapply list_elem_of_lookup_2.
Qed.

(** The scenario of the specification: seed 42, size 5, band [0.5, 0.7]. *)
Example generatePuzzle_42 :
  ∃ p, generatePuzzle sin_series 42 5 MEDIUM = Some p
     ∧ title p = PatternTitle 42 ∧ size p = 5 ∧ seed p = 42%float
     ∧ squareb 5 (grid p) = true ∧ binaryb (grid p) = true.
Proof. eexists. split; [vm_compute; reflexivity|]. by vm_compute. Qed.

(** A grid without rows has no centre to force: the write throws. *)
Example generatePuzzle_size_0 : generatePuzzle sin_series 42 0 MEDIUM = None.
Proof. by vm_compute. Qed.

(** The bounds 0.3 and 0.8 themselves are outside the smoothing range, and
    so is the low end of the Hard band. *)
Example smoothingApplies_bounds :
  smoothingApplies 0.3 = false ∧ smoothingApplies 0.8 = false
  ∧ smoothingApplies 0.5 = true ∧ smoothingApplies nan = false
  ∧ smoothingApplies (minDensity HARD) = false.
Proof. by vm_compute. Qed.

(** The scenario of the specification for the evaluator. *)
Example evaluator_scenario :
  isWin diagonal diagonalPlay = Some true
  ∧ isRowComplete (Some diagonal) diagonalPlay 0 = Some true
  ∧ isColComplete (Some diagonal) diagonalPlay 1 = Some true.
Proof. by vm_compute. Qed.

Example stringToSeed_hello : stringToSeed (codeUnits "hello") = 99162322%Z.
Proof. by vm_compute. Qed.

(** ** The theorems at concrete inputs *)

Lemma generatePuzzle_deterministic_witness :
  generatePuzzle sin_series 42 5 MEDIUM
  = generatePuzzle sin_series 42 5 (mkDifficulty [] 0.5 0.7)
  ∧ (1 ≤ 5 → ∃ p p',
       generatePuzzle sin_series 42 5 MEDIUM = Some p
       ∧ generatePuzzle sin_series 42 5 (mkDifficulty [] 0.5 0.7) = Some p'
       ∧ ∀ y x, cell (grid p) y x = cell (grid p') y x).
Proof.
  apply (generatePuzzle_deterministic sin_series 42 5 MEDIUM
           (mkDifficulty [] 0.5 0.7)); reflexivity.
Defined.

Lemma generatePuzzle_nondegenerate_witness :
  2 ≤ 5
  ∧ ∃ p, generatePuzzle sin_series 42 5 MEDIUM = Some p
       ∧ solutionGrid 5 (grid p)
       ∧ (∃ y x, cell (grid p) y x = Some 1%Z)
       ∧ (∃ y x, cell (grid p) y x = Some 0%Z).
Proof.
  split; [lia|]. apply (generatePuzzle_nondegenerate sin_series 42 5 MEDIUM). lia.
Defined.

Lemma isWin_iff_all_cells_match_witness :
  ∃ b, isWin diagonal diagonalPlay = Some b
     ∧ (b = true ↔ allCellsMatch 2 (grid diagonal) diagonalPlay).
Proof.
  apply (isWin_iff_all_cells_match 2 diagonal diagonalPlay).
  - reflexivity.
  - split; [apply squareb_square; reflexivity|apply binaryb_binary; reflexivity].
  - apply squareb_square; reflexivity.
Defined.

Lemma isWin_iff_lines_complete_witness :
  ∃ b, isWin diagonal diagonalPlay = Some b
     ∧ (∀ r, r < 2 → is_Some (isRowComplete (Some diagonal) diagonalPlay r))
     ∧ (∀ c, c < 2 → is_Some (isColComplete (Some diagonal) diagonalPlay c))
     ∧ (b = true ↔
          (∀ r, r < 2 → isRowComplete (Some diagonal) diagonalPlay r = Some true)
          ∧ (∀ c, c < 2 → isColComplete (Some diagonal) diagonalPlay c = Some true)).
Proof.
  apply (isWin_iff_lines_complete 2 diagonal diagonalPlay).
  - reflexivity.
  - apply squareb_square; reflexivity.
  - apply squareb_square; reflexivity.
Defined.

Lemma smoothing_two_iterations_witness :
  midRange (targetDensity sin_series 42 MEDIUM)
  ∧ ∃ g0, rawNoise sin_series 42 5 MEDIUM = Some g0
      ∧ smoothIteration 5 g0 = Some (smoothSpec 5 g0)
      ∧ smoothIteration 5 (smoothSpec 5 g0) = Some (smoothSpec 5 (smoothSpec 5 g0))
      ∧ smoothingPass 5 (targetDensity sin_series 42 MEDIUM) g0
        = Some (smoothSpec 5 (smoothSpec 5 g0))
      ∧ preCorrection sin_series 42 5 MEDIUM = Some (smoothSpec 5 (smoothSpec 5 g0))
      ∧ generatePuzzle sin_series 42 5 MEDIUM
        = (g ← safetyCheck 5 (smoothSpec 5 (smoothSpec 5 g0));
           Some {| title := PatternTitle 42; grid := g; size := 5; seed := 42 |})
      ∧ (1 ≤ 5 →
         ∃ p, generatePuzzle sin_series 42 5 MEDIUM = Some p
            ∧ safetyCheck 5 (smoothSpec 5 (smoothSpec 5 g0)) = Some (grid p)).
Proof.
  assert (midRange (targetDensity sin_series 42 MEDIUM)) as Hmid
    by (split; vm_compute; reflexivity).
  split; [exact Hmid|].
  apply (smoothing_two_iterations sin_series 42 5 MEDIUM). exact Hmid.
Defined.

Lemma extreme_density_keeps_noise_witness :
  1 ≤ 5
  ∧ ¬ midRange (targetDensity sin_series 7 VERY_EASY)
  ∧ ∃ g0 p, rawNoise sin_series 7 5 VERY_EASY = Some g0
      ∧ preCorrection sin_series 7 5 VERY_EASY = Some g0
      ∧ generatePuzzle sin_series 7 5 VERY_EASY = Some p
      ∧ square 5 (grid p)
      ∧ (grid p = g0
         ∨ forcedAt g0 (grid p) (5 / 2) (5 / 2) 1
         ∨ forcedAt g0 (grid p) 0 0 0).
Proof.
  assert (¬ midRange (targetDensity sin_series 7 VERY_EASY)) as Hout
    by (intros [_ H]; vm_compute in H; discriminate).
  split; [lia|]. split; [exact Hout|].
  apply (extreme_density_keeps_noise sin_series 7 5 VERY_EASY); [lia|exact Hout].
Defined.

Lemma correction_changes_one_cell_witness :
  1 ≤ 5
  ∧ ∃ g1 p, preCorrection sin_series 7 5 VERY_EASY = Some g1
      ∧ generatePuzzle sin_series 7 5 VERY_EASY = Some p
      ∧ square 5 g1 ∧ square 5 (grid p)
      ∧ ¬ (filledCount g1 = 0%Z ∧ filledCount g1 = (Z.of_nat 5 * Z.of_nat 5)%Z)
      ∧ ((filledCount g1 = 0%Z ∧ forcedAt g1 (grid p) (5 / 2) (5 / 2) 1)
         ∨ (filledCount g1 = (Z.of_nat 5 * Z.of_nat 5)%Z ∧ forcedAt g1 (grid p) 0 0 0)
         ∨ (filledCount g1 ≠ 0%Z ∧ filledCount g1 ≠ (Z.of_nat 5 * Z.of_nat 5)%Z
            ∧ grid p = g1)).
Proof.
  split; [lia|].
  apply (correction_changes_one_cell sin_series 7 5 VERY_EASY). lia.
Defined.

Lemma seed_of_text_witness :
  hasText (codeUnits "hello")
  ∧ finalSeed (Some (codeUnits "hello")) 0.25
    = (if allDigits (codeUnits "hello")
       then number_of_Z (digitsValue (codeUnits "hello"))
       else number_of_Z (Z.abs (foldl hashStep 0%Z (codeUnits "hello"))))
  ∧ finalSeed (Some (codeUnits "hello")) 0.25
    = finalSeed (Some (codeUnits "hello")) 0.75.
Proof.
  assert (hasText (codeUnits "hello")) as Ht.
  { exists 104%Z. split; [|reflexivity]. vm_compute. left. }
  split; [exact Ht|].
  apply (seed_of_text (codeUnits "hello") 0.25 0.75). exact Ht.
Defined.

(** C9, as stated, fails on a text of white space only: the text " " has no
    digit, yet its seed is not its hash and changes with the random draw. *)
Lemma seed_of_blank_text :
  allDigits (codeUnits " ") = false
  ∧ stringToSeed (codeUnits " ") = 32%Z
  ∧ finalSeed (Some (codeUnits " ")) 0.25 = 500000000%float
  ∧ finalSeed (Some (codeUnits " ")) 0.5 = 1000000000%float
  ∧ finalSeed (Some (codeUnits " ")) 0.25
    ≠ number_of_Z (stringToSeed (codeUnits " "))
  ∧ finalSeed (Some (codeUnits " ")) 0.25 ≠ finalSeed (Some (codeUnits " ")) 0.5.
Proof.
  repeat split; try (vm_compute; reflexivity).
  - intros H. apply (f_equal (λ x, (x =? 32)%float)) in H.
    vm_compute in H. discriminate.
  - intros H. apply (f_equal (λ x, (x =? 500000000)%float)) in H.
    vm_compute in H. discriminate.
Qed.

(** * Further properties *)

(** ** The text hash *)

Lemma toInt32_congr (a b : Z) :
  (a mod 2 ^ 32 = b mod 2 ^ 32)%Z → toInt32 a = toInt32 b.
Proof. unfold toInt32. by intros ->. Qed.

Lemma toInt32_mod (a : Z) : (toInt32 a mod 2 ^ 32 = a mod 2 ^ 32)%Z.
Proof.
  unfold toInt32. pose proof (Z.mod_pos_bound a (2 ^ 32)) as Hb.
  destruct (Z.ltb_spec (a mod 2 ^ 32) (2 ^ 31)).
  - apply Z.mod_mod. lia.
  - rewrite Zminus_mod, Z.mod_same, Z.sub_0_r, !Z.mod_mod by lia. done.
Qed.

Lemma toInt32_range (a : Z) : (- 2 ^ 31 ≤ toInt32 a < 2 ^ 31)%Z.
Proof.
  unfold toInt32. pose proof (Z.mod_pos_bound a (2 ^ 32)) as Hb.
  destruct (Z.ltb_spec (a mod 2 ^ 32) (2 ^ 31)); lia.
Qed.

Lemma hashStep_poly (h char : Z) :
  hashStep (toInt32 h) char = toInt32 (31 * h + char).
Proof.
  unfold hashStep. apply toInt32_congr. unfold shiftLeft32.
  replace (5 mod 32)%Z with 5%Z by done.
  rewrite Z.shiftl_mul_pow2 by lia.
  rewrite Zplus_mod, Zminus_mod, toInt32_mod.
  rewrite Zmult_mod, !toInt32_mod.
  rewrite <- Zmult_mod, <- Zminus_mod, <- Zplus_mod.
  f_equal. lia.
Qed.

Lemma foldl_hashStep_poly (str : js_string) (h : Z) :
  foldl hashStep (toInt32 h) str
  = toInt32 (foldl (λ h char, (31 * h + char)%Z) h str).
Proof.
  revert h. induction str as [|char str IH]; intros h; simpl; [done|].
  by rewrite hashStep_poly, IH.
Qed.

(** X1. [stringToSeed] is the polynomial hash of the code units in base 31,
    wrapped to a signed 32-bit integer, in absolute value; it lies between 0
    and 2^31 inclusive. *)
Theorem stringToSeed_polynomial (str : js_string) :
  stringToSeed str = Z.abs (toInt32 (polyHash str))
  ∧ (0 ≤ stringToSeed str ≤ 2 ^ 31)%Z.
Proof.
  assert (stringToSeed str = Z.abs (toInt32 (polyHash str))) as Heq.
  { unfold stringToSeed, polyHash. case_decide as Hlen.
    - by destruct str.
    - change 0%Z with (toInt32 0) at 1. by rewrite foldl_hashStep_poly. }
  split; [done|]. rewrite Heq. pose proof (toInt32_range (polyHash str)). lia.
Qed.

(** ** Constant grids *)

Lemma square_constGrid (n : nat) (v : Z) : square n (constGrid n v).
Proof.
  unfold constGrid. split; [apply length_replicate|].
  intros y row [-> _]%lookup_replicate. apply length_replicate.
Qed.

Lemma cell_constGrid (n : nat) (v : Z) (y x : nat) :
  y < n → x < n → cell (constGrid n v) y x = Some v.
Proof.
  intros Hy Hx. unfold cell, constGrid.
  rewrite lookup_replicate_2 by done. simpl. by apply lookup_replicate_2.
Qed.

Lemma tabulate_const (n : nat) (v : Z) : tabulate n (λ _ _, v) = constGrid n v.
Proof.
  apply (grid_ext n); [apply square_tabulate|apply square_constGrid|].
  intros y x Hy Hx. by rewrite cell_tabulate, cell_constGrid.
Qed.

Lemma binary_constGrid (n : nat) (v : Z) : (v = 0 ∨ v = 1)%Z → binary (constGrid n v).
Proof.
  intros Hv y x c Hc.
  destruct (cell_bounds n _ y x c (square_constGrid n v) Hc) as [Hy Hx].
  rewrite cell_constGrid in Hc by done. by injection Hc as <-.
Qed.

Lemma rowSum_replicate (k : nat) (v : Z) :
  rowSum (replicate k v) = (Z.of_nat k * v)%Z.
Proof. induction k as [|k IH]; simpl; [done|]. rewrite foldl_add_acc, IH. lia. Qed.

Lemma filledCount_replicate (m : nat) (row : list Z) :
  filledCount (replicate m row) = (Z.of_nat m * rowSum row)%Z.
Proof.
  induction m as [|m IH]; [done|].
  simpl replicate. rewrite filledCount_cons, IH. lia.
Qed.

Lemma filledCount_constGrid (n : nat) (v : Z) :
  filledCount (constGrid n v) = (Z.of_nat n * Z.of_nat n * v)%Z.
Proof.
  unfold constGrid. rewrite filledCount_replicate, rowSum_replicate. lia.
Qed.

(** A loop that threads a value it never changes beside its state. *)
Lemma for_each_carry {I A S : Type} (idx : list I) (a : A)
    (body : I → S → option S) (body' : I → A * S → option (A * S)) (s : S) :
  (∀ i s, body' i (a, s) = (s' ← body i s; Some (a, s'))) →
  for_each idx body' (a, s) = (s' ← for_each idx body s; Some (a, s')).
Proof.
  intros Hb. revert s. induction idx as [|i idx IH]; intros s; simpl; [done|].
  rewrite Hb. destruct (body i s) as [s'|]; simpl; [apply IH|done].
Qed.

Lemma smoothSpec_empty (n : nat) :
  smoothSpec n (constGrid n 0) = constGrid n 0.
Proof.
  apply (grid_ext n); [apply square_tabulate|apply square_constGrid|].
  intros y x Hy Hx. rewrite smoothSpec_cell, cell_constGrid by done. f_equal.
  assert (∀ a b, filledAt (constGrid n 0) a b = false) as Hf.
  { intros a b. unfold filledAt. apply bool_decide_eq_false. intros Hc.
    destruct (cell_bounds n _ a b 1%Z (square_constGrid n 0) Hc).
    by rewrite cell_constGrid in Hc. }
  rewrite Hf, filledNeighbors_terms by done. cbv zeta. rewrite !Hf.
  rewrite !andb_false_r. done.
Qed.

Lemma smoothSpec_full (n : nat) :
  2 ≤ n → smoothSpec n (constGrid n 1) = constGrid n 1.
Proof.
  intros Hn.
  apply (grid_ext n); [apply square_tabulate|apply square_constGrid|].
  intros y x Hy Hx. rewrite smoothSpec_cell, cell_constGrid by done. f_equal.
  assert (∀ a b, a < n → b < n → filledAt (constGrid n 1) a b = true) as Hf.
  { intros a b Ha Hb. unfold filledAt. apply bool_decide_eq_true.
    by apply cell_constGrid. }
  rewrite (Hf y x) by done. unfold smoothRule.
  rewrite decide_True; [done|].
  rewrite filledNeighbors_terms by done. cbv zeta.
  destruct (decide (1 ≤ y)), (decide (y + 1 < n)),
           (decide (1 ≤ x)), (decide (x + 1 < n)); try lia.
  all: repeat first [ rewrite bool_decide_eq_true_2 by lia
                    | rewrite bool_decide_eq_false_2 by lia ].
  all: cbn [andb]; rewrite ?Hf by lia; lia.
Qed.

(** X2. A smoothing iteration leaves the all-empty grid as it is, and the
    all-filled grid too when the size is at least 2; the single filled cell
    of a 1 by 1 grid is emptied. *)
Theorem smoothing_fixed_points (n : nat) :
  smoothIteration n (constGrid n 0) = Some (constGrid n 0)
  ∧ (2 ≤ n → smoothIteration n (constGrid n 1) = Some (constGrid n 1))
  ∧ smoothIteration 1 (constGrid 1 1) = Some (constGrid 1 0).
Proof.
  split; [|split].
  - rewrite smoothIteration_spec by apply square_constGrid.
    by rewrite smoothSpec_empty.
  - intros Hn. rewrite smoothIteration_spec by apply square_constGrid.
    by rewrite smoothSpec_full.
  - done.
Qed.

(** X3. After a smoothing iteration a corner cell is filled exactly when it
    was filled and its three neighbours were filled: a corner has too few
    neighbours to be filled otherwise. *)
Theorem smoothing_erodes_corners (n : nat) (g : Grid) (cy cx : nat) :
  2 ≤ n → square n g → (cy = 0 ∨ cy = n - 1) → (cx = 0 ∨ cx = n - 1) →
  let ny := if decide (cy = 0) then 1 else n - 2 in
  let nx := if decide (cx = 0) then 1 else n - 2 in
  ∃ g', smoothIteration n g = Some g'
      ∧ (cell g' cy cx = Some 1%Z ↔
           cell g cy cx = Some 1%Z ∧ cell g cy nx = Some 1%Z
           ∧ cell g ny cx = Some 1%Z ∧ cell g ny nx = Some 1%Z).
Proof.
  intros Hn Hsq Hcy Hcx ny nx. rewrite smoothIteration_spec by done.
  eexists. split; [done|].
  rewrite smoothSpec_cell by lia. rewrite filledNeighbors_terms by lia. cbv zeta.
  assert (∀ a b, filledAt g a b = true ↔ cell g a b = Some 1%Z) as Hf.
  { intros a b. unfold filledAt. apply bool_decide_eq_true. }
  rewrite <- !Hf. subst ny nx.
  destruct Hcy as [-> | ->], Hcx as [-> | ->].
  all: repeat first [ rewrite bool_decide_eq_true_2 by lia
                    | rewrite bool_decide_eq_false_2 by lia
                    | rewrite decide_True by lia
                    | rewrite decide_False by lia ].
  all: cbn [andb Nat.add]; replace (n - 1 - 1) with (n - 2) by lia.
  all: unfold smoothRule.
  all: repeat match goal with
              | |- context [filledAt ?h ?a ?b] => destruct (filledAt h a b)
              end.
  all: repeat case_decide; split; intros; try lia; try done;
       try (by repeat split); try (by intuition discriminate).
Qed.

Section Saturation.

Variable Math_sin : float → float.

(** The generator after [k] further calls of [next()]. *)
Lemma counter_saturated (c : float) (k : nat) :
  (c + 1)%float = c →
  Nat.iter k (λ r, (Random_next Math_sin r).2) (mkRandom c) = mkRandom c.
Proof.
  intros Hc. induction k as [|k IH]; [done|].
  rewrite Nat.iter_succ, IH. unfold Random_next. simpl. by rewrite Hc.
Qed.

(** Once the counter no longer moves, every draw is the same draw. *)
Lemma rawNoise_saturated (s : float) (n : nat) (b : DifficultySettings) :
  (s + 1 + 1)%float = (s + 1)%float →
  ∃ v, (v = 0 ∨ v = 1)%Z ∧ rawNoise Math_sin s n b = Some (constGrid n v).
Proof.
  intros Hs.
  set (d := targetDensity Math_sin s b).
  set (c := (s + 1)%float) in *.
  set (v := if fst (Random_bool Math_sin d (mkRandom c)) then 1%Z else 0%Z).
  exists v. split; [subst v; by destruct (fst _); auto|].
  unfold rawNoise, Random_next. simpl counter. fold c d.
  assert (∀ y x g, noiseCell Math_sin d y x (mkRandom c, g)
                   = (g' ← store g y x v; Some (mkRandom c, g'))) as Hcell.
  { intros y x g. unfold noiseCell, v, Random_bool, Random_next.
    simpl counter. by rewrite Hs. }
  unfold noisePass.
  rewrite (for_each_carry (upto n) (mkRandom c)
             (λ y, for_each (upto n) (λ x g, store g y x v))).
  2:{ intros y g. by apply for_each_carry. }
  rewrite (fill_loop n (λ y x g, store g y x v) (λ _ _, v));
    [|apply square_zeroGrid|done].
  simpl. by rewrite tabulate_const.
Qed.

(** X4. When the counter no longer moves once the density is drawn (the
    seed plus 1 is a number that adding 1 does not change, as for the seeds
    2^53 and 2^53 + 2), every later call of [next()] returns the same draw
    and leaves the generator as it was, the noise pass gives every cell the
    same value, and for a size of at least 2 the returned grid is all empty
    but for the centre, or all filled but for cell (0,0). *)
Theorem saturated_seed_gives_degenerate_grid (s : float) (n : nat)
    (b : DifficultySettings) :
  (s + 1 + 1)%float = (s + 1)%float → 2 ≤ n →
  (∀ k, Random_next Math_sin
          (Nat.iter k (λ r, (Random_next Math_sin r).2) (mkRandom (s + 1)))
        = Random_next Math_sin (mkRandom (s + 1)))
  ∧ (∃ v, (v = 0 ∨ v = 1)%Z ∧ rawNoise Math_sin s n b = Some (constGrid n v))
  ∧ ∃ p, generatePuzzle Math_sin s n b = Some p
       ∧ square n (grid p)
       ∧ (forcedAt (constGrid n 0) (grid p) (n / 2) (n / 2) 1
          ∨ forcedAt (constGrid n 1) (grid p) 0 0 0).
Proof.
  intros Hs Hn. split; [intros k; by rewrite counter_saturated|].
  destruct (rawNoise_saturated s n b Hs) as (v & Hv & Hraw).
  split; [by exists v|].
  assert (preCorrection Math_sin s n b = Some (constGrid n v)) as Hpre.
  { unfold preCorrection. rewrite Hraw. cbn [mbind option_bind].
    destruct (smoothingApplies (targetDensity Math_sin s b)) eqn:Hd.
    - rewrite smoothingPass_on by (apply square_constGrid || done).
      destruct Hv as [-> | ->].
      + by rewrite !smoothSpec_empty.
      + by rewrite !smoothSpec_full.
    - by apply smoothingPass_off. }
  destruct (safetyCheck_cases n (constGrid n v)) as (g' & Hg' & Hsol & Hcases);
    [lia|split; [apply square_constGrid|by apply binary_constGrid]|].
  rewrite (generatePuzzle_unfold Math_sin s n b _ g' Hpre Hg').
  eexists. split; [done|]. simpl. split; [apply Hsol|].
  rewrite filledCount_constGrid in Hcases.
  destruct Hv as [-> | ->]; destruct Hcases as [[? ?]|[[? ?]|[? ?]]];
    (by left) || (by right) || nia.
Qed.

End Saturation.

(** The seed 2^53 is such a seed as well. *)
Example saturated_seeds :
  (9007199254740992 + 1 + 1)%float = (9007199254740992 + 1)%float
  ∧ (9007199254740994 + 1)%float = 9007199254740996%float
  ∧ (infinity + 1 + 1)%float = (infinity + 1)%float.
Proof. by vm_compute. Qed.

Lemma saturated_seed_gives_degenerate_grid_witness :
  (9007199254740994 + 1 + 1)%float = (9007199254740994 + 1)%float ∧ 2 ≤ 5
  ∧ (∀ k, Random_next sin_series
            (Nat.iter k (λ r, (Random_next sin_series r).2)
               (mkRandom (9007199254740994 + 1)))
          = Random_next sin_series (mkRandom (9007199254740994 + 1)))
  ∧ (∃ v, (v = 0 ∨ v = 1)%Z
        ∧ rawNoise sin_series 9007199254740994 5 MEDIUM = Some (constGrid 5 v))
  ∧ ∃ p, generatePuzzle sin_series 9007199254740994 5 MEDIUM = Some p
       ∧ square 5 (grid p)
       ∧ (forcedAt (constGrid 5 0) (grid p) (5 / 2) (5 / 2) 1
          ∨ forcedAt (constGrid 5 1) (grid p) 0 0 0).
Proof.
  split; [reflexivity|]. split; [lia|].
  apply (saturated_seed_gives_degenerate_grid sin_series 9007199254740994 5 MEDIUM);
    [reflexivity|lia].
Defined.

(** ** Lines outside the grid *)

Lemma leavesEarly_throws (k : nat) (idx : list nat) (probe : nat → option bool) :
  probe k = None → leavesEarly (k :: idx) probe = None.
Proof. intros H. simpl. by rewrite H. Qed.

(** X5. On a board of size at least 1, an index past the last line makes
    [isRowComplete] throw and [isColComplete] answer true. *)
Theorem line_index_out_of_bounds (n : nat) (puzzle : PuzzleData)
    (P : list (list CellState)) (i : nat) :
  1 ≤ n → size puzzle = n → square n (grid puzzle) → square n P → n ≤ i →
  isRowComplete (Some puzzle) P i = None
  ∧ isColComplete (Some puzzle) P i = Some true.
Proof.
  intros Hn Hsize [HlS HrS] [HlP HrP] Hi. split.
  - unfold isRowComplete. rewrite Hsize, decide_False by lia.
    destruct n as [|n]; [lia|]. unfold upto. simpl seq.
    rewrite leavesEarly_throws; [done|].
    unfold probeCell, index2. by rewrite (lookup_ge_None_2 (grid puzzle)) by lia.
  - unfold isColComplete. rewrite Hsize, decide_False by lia.
    destruct (leavesEarly_upto n (λ r, probeCell puzzle P r i) (λ _, false))
      as (hit & -> & Hhit).
    { intros r Hr. rewrite (probeCell_square n) by (done || lia).
      unfold cell.
      destruct (lookup_lt_is_Some_2 (grid puzzle) r) as [srow Hs]; [lia|].
      destruct (lookup_lt_is_Some_2 P r) as [prow Hp]; [lia|].
      rewrite Hs, Hp. simpl.
      rewrite (lookup_ge_None_2 srow), (lookup_ge_None_2 prow);
        [done|rewrite (HrP _ _ Hp); lia|rewrite (HrS _ _ Hs); lia]. }
    cbn [mbind option_bind]. f_equal.
    assert (hit = false) as -> by (by apply Hhit). done.
Qed.

(** ** The cheat *)

Lemma square_solvedGrid (n : nat) (p : PuzzleData) :
  square n (grid p) → square n (solvedGrid p).
Proof.
  intros [Hl Hr]. unfold solvedGrid. split; [by rewrite length_fmap|].
  intros y row Hrow. rewrite list_lookup_fmap in Hrow.
  destruct (grid p !! y) as [srow|] eqn:Hs; [|done]. injection Hrow as <-.
  rewrite length_fmap. by eapply Hr.
Qed.

Lemma cell_solvedGrid (p : PuzzleData) (r c : nat) :
  cell (solvedGrid p) r c
  = (λ val, if bool_decide (val = 1%Z) then FILLED else EMPTY) <$> cell (grid p) r c.
Proof.
  unfold cell, solvedGrid. rewrite list_lookup_fmap.
  destruct (grid p !! r) as [srow|]; simpl; [|done]. by rewrite list_lookup_fmap.
Qed.

Lemma solvedGrid_wins (n : nat) (p : PuzzleData) :
  size p = n → square n (grid p) →
  isWin p (solvedGrid p) = Some true
  ∧ (∀ i, i < n → isRowComplete (Some p) (solvedGrid p) i = Some true
              ∧ isColComplete (Some p) (solvedGrid p) i = Some true).
Proof.
  intros Hsize Hsq. pose proof (square_solvedGrid n p Hsq) as Hsq'.
  assert (∀ r c, mismatch (cell (grid p) r c) (cell (solvedGrid p) r c) = false)
    as Hm.
  { intros r c. rewrite cell_solvedGrid. destruct (cell (grid p) r c) as [v|]; [|done].
    simpl. unfold mismatch, strict_eq. destruct (decide (v = 1%Z)) as [->|Hv]; [done|].
    rewrite (bool_decide_eq_false_2 (v = 1%Z)) by done.
    rewrite (bool_decide_eq_false_2 (Some v = Some 1%Z)) by congruence.
    rewrite (bool_decide_eq_false_2 (Some EMPTY = Some FILLED)) by done.
    by rewrite andb_false_r. }
  split.
  - destruct (isWin_spec n p (solvedGrid p) Hsize Hsq Hsq') as (b & -> & Hb).
    f_equal. apply Hb. intros. apply Hm.
  - intros i Hi. split.
    + destruct (isRowComplete_spec n p (solvedGrid p) i) as (b & -> & Hb); [done..|].
      f_equal. apply Hb. intros. apply Hm.
    + destruct (isColComplete_spec n p (solvedGrid p) i) as (b & -> & Hb); [done..|].
      f_equal. apply Hb. intros. apply Hm.
Qed.

(** ** Hints *)

(** X6. [colHints] is the transpose of the solution grid: line [c] holds,
    at position [r], the cell of row [r] and column [c]; [rowHints] is the
    grid itself. *)
Theorem colHints_transpose (n : nat) (p : PuzzleData) :
  size p = n → square n (grid p) →
  square n (colHints (Some p))
  ∧ (∀ r c, r < n → c < n →
       cell (colHints (Some p)) c r = Some (cell (grid p) r c)
       ∧ is_Some (cell (grid p) r c))
  ∧ rowHints (Some p) = grid p.
Proof.
  intros Hsize Hsq. pose proof Hsq as [Hl Hr]. unfold colHints. rewrite Hsize.
  split; [|split; [|done]].
  - unfold upto. split; [by rewrite length_fmap, length_seq|].
    intros y row Hrow. rewrite list_lookup_fmap in Hrow.
    destruct (seq 0 n !! y); [|done]. injection Hrow as <-.
    by rewrite length_fmap.
  - intros r c Hr' Hc. split; [|by apply (square_cell n)].
    unfold cell, upto. rewrite list_lookup_fmap, lookup_seq_lt by done. simpl.
    rewrite list_lookup_fmap.
    destruct (lookup_lt_is_Some_2 (grid p) r) as [row ->]; [lia|]. done.
Qed.

(** ** The player grid *)

Lemma square_createEmptyGrid (n : nat) : square n (createEmptyGrid n).
Proof.
  unfold createEmptyGrid. split; [apply length_replicate|].
  intros y row [-> _]%lookup_replicate. apply length_replicate.
Qed.

Lemma cell_createEmptyGrid (n r c : nat) :
  r < n → c < n → cell (createEmptyGrid n) r c = Some EMPTY.
Proof.
  intros Hr Hc. unfold cell, createEmptyGrid.
  rewrite lookup_replicate_2 by done. simpl. by apply lookup_replicate_2.
Qed.

Lemma updateCell_spec (n : nat) (P : list (list CellState)) (r c : nat)
    (s : CellState) :
  square n P → r < n → c < n →
  ∃ P', updateCell P r c s = Some P' ∧ square n P'
      ∧ cell P' r c = Some s
      ∧ (∀ r' c', (r', c') ≠ (r, c) → cell P' r' c' = cell P r' c').
Proof.
  intros [Hl Hr] Hr' Hc. unfold updateCell.
  rewrite index2_cell by lia. cbn [mbind option_bind].
  unfold strict_eq. case_bool_decide as Hcur.
  { exists P. by repeat split. }
  destruct (lookup_lt_is_Some_2 P r) as [row Hrow]; [lia|].
  rewrite Hrow. cbn [mbind option_bind]. pose proof (Hr _ _ Hrow) as Hlen.
  rewrite decide_True by lia.
  eexists. split; [done|]. split; [|split].
  - split; [by rewrite length_insert|].
    intros y' row' Hy'. destruct (decide (r = y')) as [<-|Hne].
    + rewrite list_lookup_insert_eq in Hy' by lia.
      injection Hy' as <-. by rewrite length_insert.
    + rewrite list_lookup_insert_ne in Hy' by done. by eapply Hr.
  - unfold cell. rewrite list_lookup_insert_eq by lia. simpl.
    apply list_lookup_insert_eq. lia.
  - intros y' x' Hne. unfold cell.
    destruct (decide (r = y')) as [<-|Hy'].
    + rewrite list_lookup_insert_eq by lia. rewrite Hrow. simpl.
      apply list_lookup_insert_ne. congruence.
    + by rewrite list_lookup_insert_ne.
Qed.

(** X7. Inside the grid [updateCell] sets the one cell and keeps the
    dimensions and every other cell; it returns the grid it was given when
    the cell already has the state, so applying it again changes nothing.
    A row index past the grid makes it throw. *)
Theorem updateCell_writes_one_cell (n : nat) (P : list (list CellState))
    (r c : nat) (s : CellState) :
  square n P →
  (r < n → c < n →
     ∃ P', updateCell P r c s = Some P' ∧ square n P'
         ∧ cell P' r c = Some s
         ∧ (∀ r' c', (r', c') ≠ (r, c) → cell P' r' c' = cell P r' c')
         ∧ (cell P r c = Some s → P' = P)
         ∧ updateCell P' r c s = Some P')
  ∧ (n ≤ r → updateCell P r c s = None).
Proof.
  intros Hsq. split.
  - intros Hr Hc.
    destruct (updateCell_spec n P r c s Hsq Hr Hc) as (P' & HP' & Hsq' & Hcell & Ho).
    exists P'. do 4 (split; [done|]). split.
    + intros Hcur. unfold updateCell in HP'.
      rewrite index2_cell in HP' by (destruct Hsq; lia).
      cbn [mbind option_bind] in HP'. unfold strict_eq in HP'.
      rewrite bool_decide_eq_true_2 in HP' by done. by injection HP'.
    + unfold updateCell. rewrite index2_cell by (destruct Hsq'; lia).
      cbn [mbind option_bind]. unfold strict_eq.
      by rewrite bool_decide_eq_true_2.
  - intros Hr. unfold updateCell, index2.
    by rewrite (lookup_ge_None_2 P) by (destruct Hsq; lia).
Qed.

(** ** Generated puzzles *)

Lemma safetyCheck_mixed (n : nat) (g g' : Grid) :
  2 ≤ n → solutionGrid n g → safetyCheck n g = Some g' →
  solutionGrid n g'
  ∧ (∃ y x, cell g' y x = Some 1%Z) ∧ (∃ y x, cell g' y x = Some 0%Z).
Proof.
  intros Hn Hg Hsafe.
  destruct (safetyCheck_cases n g) as (g2 & H2 & Hg2 & Hcases); [lia|done|].
  rewrite Hsafe in H2. injection H2 as <-. split; [done|].
  pose proof (solutionGrid_rows n g Hg) as Hrows.
  assert (length g = n) as Hlen by (by destruct Hg as [[? _] _]).
  assert (1 ≤ n / 2) as Hmid by (apply Nat.div_le_lower_bound; lia).
  destruct (square_cell n g 0 0) as [c00 H00]; [apply Hg|lia|lia|].
  destruct (square_cell n g 1 1) as [c11 H11]; [apply Hg|lia|lia|].
  remember (n / 2) as m eqn:Hm.
  destruct Hcases as [[H0 [Hc Ho]]|[[Hf [Hc Ho]]|[Hmid' ->]]].
  - split; [by exists m, m|]. exists 0, 0.
    rewrite Ho by (intros [= ? ?]; lia). rewrite H00. f_equal.
    by apply (filledCount_zero n g 0 0).
  - split; [|by exists 0, 0]. exists 1, 1.
    rewrite Ho by (intros [= ? ?]; lia). rewrite H11. f_equal.
    apply (filledCount_full n g 1 1); [done|by rewrite Hlen|done].
  - split.
    + apply (filledCount_pos n); [done|lia].
    + apply (filledCount_short n); [done|rewrite Hlen; lia].
Qed.

Lemma mixed_count (n : nat) (g : Grid) :
  solutionGrid n g →
  (∃ y x, cell g y x = Some 1%Z) → (∃ y x, cell g y x = Some 0%Z) →
  (1 ≤ filledCount g ≤ Z.of_nat n * Z.of_nat n - 1)%Z.
Proof.
  intros Hg (y1 & x1 & H1) (y0 & x0 & H0).
  pose proof (solutionGrid_rows n g Hg) as Hrows.
  assert (length g = n) as Hlen by (by destruct Hg as [[? _] _]).
  pose proof (filledCount_bounds n g Hrows) as Hb. rewrite Hlen in Hb.
  destruct (decide (filledCount g = 0%Z)) as [Hz|Hz].
  { pose proof (filledCount_zero n g y1 x1 1%Z Hrows Hz H1). lia. }
  destruct (decide (filledCount g = (Z.of_nat n * Z.of_nat n)%Z)) as [Hf|Hf].
  { rewrite <- Hlen in Hf at 1.
    pose proof (filledCount_full n g y0 x0 0%Z Hrows Hf H0). lia. }
  lia.
Qed.

Section GeneratedPuzzles.

Variable Math_sin : float → float.

Lemma generatePuzzle_mixed (s : float) (n : nat) (b : DifficultySettings) :
  2 ≤ n →
  ∃ p, generatePuzzle Math_sin s n b = Some p
     ∧ size p = n ∧ seed p = s ∧ solutionGrid n (grid p)
     ∧ (∃ y x, cell (grid p) y x = Some 1%Z)
     ∧ (∃ y x, cell (grid p) y x = Some 0%Z).
Proof.
  intros Hn. destruct (preCorrection_ok Math_sin s n b) as (g1 & H1 & Hg1).
  destruct (safetyCheck_cases n g1) as (g2 & H2 & Hg2 & _); [lia|done|].
  rewrite (generatePuzzle_unfold Math_sin s n b g1 g2 H1 H2).
  eexists. split; [done|]. simpl. split; [done|]. split; [done|].
  by apply (safetyCheck_mixed n g1 g2).
Qed.

Lemma generatePuzzle_size_zero (s : float) (b : DifficultySettings) :
  generatePuzzle Math_sin s 0 b = None.
Proof.
  rewrite generatePuzzle_stages.
  destruct (preCorrection_ok Math_sin s 0 b) as (g & -> & [[Hl _] _]).
  by destruct g.
Qed.

(** X8. For a size of at least 2 the count of filled cells that
    [getStats] reports for a generated puzzle is at least 1 and at most the
    number of cells minus 1. *)
Theorem generated_filled_count (s : float) (n : nat) (b : DifficultySettings) :
  2 ≤ n →
  ∃ p, generatePuzzle Math_sin s n b = Some p
     ∧ (1 ≤ statsCount (Some p) ≤ Z.of_nat n * Z.of_nat n - 1)%Z.
Proof.
  intros Hn.
  destruct (generatePuzzle_mixed s n b Hn) as (p & Hp & _ & _ & Hg & H1 & H0).
  exists p. split; [done|]. by apply mixed_count.
Qed.

(** X9. With a selected size of at least 1, [startNewGame] ends in status
    playing with a puzzle of that size and of the chosen seed, a player grid
    of the same dimensions with every cell EMPTY, and the debug view, the
    hint check and the win corner reset. *)
Theorem startNewGame_sets_up_board (seedVal : option js_string)
    (random : float) (st : AppState) :
  1 ≤ selectedSize st →
  let st' := startNewGame Math_sin seedVal random st in
  status (gameState st') = Playing
  ∧ (∃ p, puzzle st' = Some p ∧ size p = selectedSize st
        ∧ seed p = finalSeed seedVal random
        ∧ solutionGrid (selectedSize st) (grid p))
  ∧ playerGrid st' = createEmptyGrid (selectedSize st)
  ∧ square (selectedSize st) (playerGrid st')
  ∧ isDebugVisible st' = false ∧ isCheckHintsActive st' = false
  ∧ winCorner st' = None.
Proof.
  intros Hn st'. subst st'. unfold startNewGame.
  destruct (generatePuzzle_ok Math_sin (finalSeed seedVal random)
              (selectedSize st) (DIFFICULTY_CONFIG (selectedDifficulty st)) Hn)
    as (p & -> & Hg & Hsize & Hseed & _).
  simpl. rewrite Hsize. split; [done|]. split; [by exists p|].
  split; [done|]. split; [apply square_createEmptyGrid|done].
Qed.

(** X10. With a selected size of 0 the generation throws and
    [startNewGame] ends in status error with its message, keeping the puzzle
    and the player grid it had. *)
Theorem startNewGame_without_size (seedVal : option js_string)
    (random : float) (st : AppState) :
  selectedSize st = 0 →
  let st' := startNewGame Math_sin seedVal random st in
  gameState st' = mkGameState Error (Some "Failed to generate puzzle."%string)
  ∧ puzzle st' = puzzle st ∧ playerGrid st' = playerGrid st.
Proof.
  intros Hn st'. subst st'. unfold startNewGame.
  by rewrite Hn, generatePuzzle_size_zero.
Qed.

Lemma isWin_emptyGrid (n : nat) (p : PuzzleData) :
  size p = n → square n (grid p) → (∃ y x, cell (grid p) y x = Some 1%Z) →
  isWin p (createEmptyGrid n) = Some false.
Proof.
  intros Hsize Hsq (y & x & H1).
  destruct (isWin_spec n p (createEmptyGrid n) Hsize Hsq (square_createEmptyGrid n))
    as (b & -> & Hb).
  f_equal. destruct b; [|done].
  destruct (cell_bounds n _ y x _ Hsq H1) as [Hy Hx].
  pose proof (proj1 Hb eq_refl y x Hy Hx) as Hm.
  by rewrite H1, cell_createEmptyGrid in Hm.
Qed.

(** X11. With a selected size of at least 2, the win check run on the
    state [startNewGame] leaves changes nothing: a new game is not won. *)
Theorem new_game_is_not_won (seedVal : option js_string)
    (random random' : float) (st : AppState) :
  2 ≤ selectedSize st →
  let st' := startNewGame Math_sin seedVal random st in
  winEffect random' st' = Some st' ∧ status (gameState st') = Playing.
Proof.
  intros Hn st'. subst st'. unfold startNewGame.
  destruct (generatePuzzle_mixed (finalSeed seedVal random)
              (selectedSize st) (DIFFICULTY_CONFIG (selectedDifficulty st)) Hn)
    as (p & -> & Hsize & _ & Hg & H1 & _).
  unfold winEffect. simpl. rewrite Hsize.
  rewrite (isWin_emptyGrid (selectedSize st) p Hsize (proj1 Hg) H1). done.
Qed.

End GeneratedPuzzles.

(** ** Events of a game *)

Lemma handleMouseDown_playing (n : nat) (button : Z) (r c : nat) (st : AppState) :
  status (gameState st) = Playing → square n (playerGrid st) → r < n → c < n →
  let tool := if (button =? 2)%Z then CROSS else activeTool st in
  let target := toggled tool (cell (playerGrid st) r c) in
  ∃ P', updateCell (playerGrid st) r c target = Some P'
      ∧ handleMouseDown button r c st
        = Some (setPlayerGrid P' (setDrag true (Some target) st)).
Proof.
  intros Hst Hsq Hr Hc tool target. unfold handleMouseDown.
  rewrite decide_False by (by rewrite Hst; intros []).
  rewrite index2_cell by (destruct Hsq; lia). cbn [mbind option_bind].
  fold tool target.
  destruct (updateCell_spec n (playerGrid st) r c target Hsq Hr Hc) as (P' & -> & _).
  by exists P'.
Qed.


Lemma handle_keeps_board (n : nat) (ev : Event) (st : AppState) :
  boardOf n st → inGrid n ev →
  ∃ st', handle ev st = Some st' ∧ boardOf n st' ∧ puzzle st' = puzzle st.
Proof.
  intros (p & Hp & Hsize & HS & HP) Hin.
  destruct ev as [button r c|r c| | |random]; simpl in *.
  - destruct Hin as [Hr Hc]. unfold handleMouseDown. case_decide.
    { exists st. split; [done|]. split; [by exists p|done]. }
    rewrite index2_cell by (destruct HP; lia). cbn [mbind option_bind].
    destruct (updateCell_spec n (playerGrid st) r c
                (toggled (if (button =? 2)%Z then CROSS else activeTool st)
                   (cell (playerGrid st) r c)) HP Hr Hc) as (P' & -> & HP' & _).
    eexists. split; [done|]. split; [by exists p|done].
  - destruct Hin as [Hr Hc]. unfold handleMouseEnter. case_decide.
    { exists st. split; [done|]. split; [by exists p|done]. }
    destruct (isDragging st), (dragTargetState st) as [target|];
      try (exists st; split; [done|]; split; [by exists p|done]).
    destruct (updateCell_spec n (playerGrid st) r c target HP Hr Hc)
      as (P' & -> & HP' & _).
    eexists. split; [done|]. split; [by exists p|done].
  - eexists. split; [done|]. split; [by exists p|done].
  - eexists. split; [done|]. unfold handleCheatWin. rewrite Hp. simpl.
    split; [|done]. exists p. by split; [|split; [|split; [|apply square_solvedGrid]]].
  - unfold winEffect. rewrite Hp. case_decide.
    { exists st. split; [done|]. split; [by exists p|done]. }
    destruct (isWin_spec n p (playerGrid st) Hsize HS HP) as (b & -> & _).
    cbn [mbind option_bind]. destruct b.
    + eexists. split; [done|]. split; [by exists p|done].
    + exists st. split; [done|]. split; [by exists p|done].
Qed.

(** X12. From a state with a puzzle and a player grid of the same
    dimensions, any sequence of presses and moves inside the grid, releases,
    cheats and win checks runs without throwing and ends with the same
    puzzle and a player grid of the same dimensions. *)
Theorem events_keep_board (n : nat) (evs : list Event) (st : AppState) :
  boardOf n st → Forall (inGrid n) evs →
  ∃ st', for_each evs handle st = Some st' ∧ boardOf n st'
       ∧ puzzle st' = puzzle st.
Proof.
  revert st. induction evs as [|ev evs IH]; intros st Hb Hin; simpl.
  - by exists st.
  - apply Forall_cons in Hin as [Hev Hin].
    destruct (handle_keeps_board n ev st Hb Hev) as (st1 & -> & Hb1 & Hp1).
    cbn [mbind option_bind].
    destruct (IH st1 Hb1 Hin) as (st' & -> & Hb' & Hp').
    exists st'. split; [done|]. split; [done|]. congruence.
Qed.

Lemma handle_not_playing (ev : Event) (st : AppState) :
  status (gameState st) ≠ Playing → ev ≠ CheatWin →
  ∃ st', handle ev st = Some st' ∧ playerGrid st' = playerGrid st
       ∧ gameState st' = gameState st ∧ puzzle st' = puzzle st.
Proof.
  intros Hst Hev. destruct ev as [button r c|r c| | |random]; simpl.
  - unfold handleMouseDown. rewrite decide_True by done. by exists st.
  - unfold handleMouseEnter. rewrite decide_True by done. by exists st.
  - by eexists.
  - done.
  - unfold winEffect. destruct (puzzle st) eqn:Hp; [|by exists st].
    rewrite decide_True by done. by exists st.
Qed.

(** X13. While the status is not playing (idle, loading, won, error),
    presses, moves, releases and win checks change neither the player grid
    nor the game state. *)
Theorem grid_is_frozen_unless_playing (evs : list Event) (st : AppState) :
  status (gameState st) ≠ Playing → Forall (λ ev, ev ≠ CheatWin) evs →
  ∃ st', for_each evs handle st = Some st' ∧ playerGrid st' = playerGrid st
       ∧ gameState st' = gameState st ∧ puzzle st' = puzzle st.
Proof.
  revert st. induction evs as [|ev evs IH]; intros st Hst Hin; simpl.
  - by exists st.
  - apply Forall_cons in Hin as [Hev Hin].
    destruct (handle_not_playing ev st Hst Hev) as (st1 & -> & HP1 & Hg1 & Hp1).
    cbn [mbind option_bind].
    destruct (IH st1) as (st' & -> & HP' & Hg' & Hp'); [by rewrite Hg1|done|].
    exists st'. split; [done|]. repeat split; congruence.
Qed.

(** X14. In a game in progress, [handleCheatWin] followed by the win check
    ends in status won, with the hint check on, the debug view off, the win
    corner drawn, and every row and every column complete. *)
Theorem cheat_then_check_wins (n : nat) (random : float) (st : AppState) :
  status (gameState st) = Playing → boardOf n st →
  ∃ p st', puzzle st = Some p
    ∧ winEffect random (handleCheatWin st) = Some st'
    ∧ gameState st' = mkGameState Won None
    ∧ playerGrid st' = solvedGrid p ∧ puzzle st' = Some p
    ∧ isDebugVisible st' = false ∧ isCheckHintsActive st' = true
    ∧ winCorner st' = Some (Math_floor (random * 4)%float)
    ∧ (∀ i, i < n → isRowComplete (Some p) (playerGrid st') i = Some true
                ∧ isColComplete (Some p) (playerGrid st') i = Some true).
Proof.
  intros Hst (p & Hp & Hsize & HS & HP).
  destruct (solvedGrid_wins n p Hsize HS) as [Hwin Hlines].
  exists p. eexists. split; [done|].
  unfold handleCheatWin, winEffect. rewrite Hp. simpl. rewrite Hp, Hst.
  rewrite decide_False by (by intros []). rewrite Hwin. cbn [mbind option_bind].
  split; [done|]. simpl. by repeat split; try apply Hlines.
Qed.

(** ** Painting *)

Lemma for_each_app {I S : Type} (l1 l2 : list I) (body : I → S → option S) (s : S) :
  for_each (l1 ++ l2) body s = (s' ← for_each l1 body s; for_each l2 body s').
Proof.
  revert s. induction l1 as [|i l1 IH]; intros s; simpl; [done|].
  destruct (body i s) as [s'|]; simpl; [apply IH|done].
Qed.

Lemma winEffect_playing (n : nat) (random : float) (p : PuzzleData) (st : AppState) :
  puzzle st = Some p → size p = n → square n (grid p) → square n (playerGrid st) →
  status (gameState st) = Playing →
  ∃ won st', isWin p (playerGrid st) = Some won ∧ winEffect random st = Some st'
    ∧ playerGrid st' = playerGrid st ∧ puzzle st' = puzzle st
    ∧ activeTool st' = activeTool st ∧ isDragging st' = isDragging st
    ∧ dragTargetState st' = dragTargetState st
    ∧ status (gameState st') = (if won then Won else Playing).
Proof.
  intros Hp Hsize HS HP Hst. unfold winEffect. rewrite Hp.
  rewrite decide_False by (by rewrite Hst; intros []).
  destruct (isWin_spec n p (playerGrid st) Hsize HS HP) as (b & -> & _).
  cbn [mbind option_bind]. exists b. destruct b.
  - eexists. by split.
  - exists st. by rewrite Hst.
Qed.



Lemma idle_steps (n : nat) (p : PuzzleData) :
  size p = n → square n (grid p) →
  ∀ evs st1,
    puzzle st1 = Some p → square n (playerGrid st1) → Forall idleEvent evs →
    ∃ st', for_each evs handle st1 = Some st'
      ∧ playerGrid st' = playerGrid st1 ∧ puzzle st' = puzzle st1
      ∧ activeTool st' = activeTool st1
      ∧ (status (gameState st1) ≠ Playing → gameState st' = gameState st1)
      ∧ (status (gameState st1) = Playing →
           ∀ won, isWin p (playerGrid st1) = Some won →
             status (gameState st')
             = if existsb isCheck evs && won then Won else Playing).
Proof.
  intros Hsize HS evs.
  induction evs as [|ev evs IH]; intros st1 Hp HP Hin.
  - exists st1. by repeat split.
  - apply Forall_cons in Hin as [Hev Hin].
    destruct ev as [button r c|r c| | |random]; simpl in Hev; try done;
      cbn [for_each handle existsb isCheck]; cbn [mbind option_bind].
    + destruct (IH (handleGlobalMouseUp st1)) as (st' & -> & HP' & Hp' & Ht' & Hn & Hpl);
        [done..|].
      exists st'. by repeat split.
    + destruct (decide (status (gameState st1) = Playing)) as [Hst|Hst].
      * destruct (winEffect_playing n random p st1 Hp Hsize HS HP Hst)
          as (won & st2 & Hwon & -> & HP2 & Hp2 & Ht2 & _ & _ & Hst2).
        cbn [mbind option_bind].
        destruct (IH st2) as (st' & -> & HP' & Hp' & Ht' & Hn & Hpl);
          [congruence|by rewrite HP2|done|].
        exists st'. split; [done|]. split; [congruence|]. split; [congruence|].
        split; [congruence|]. split; [done|].
        intros _ won' Hwon'. rewrite Hwon in Hwon'. injection Hwon' as <-.
        destruct won; simpl.
        -- rewrite Hn by (by rewrite Hst2). done.
        -- rewrite (Hpl Hst2 false) by (by rewrite HP2). by rewrite andb_false_r.
      * unfold winEffect. rewrite Hp, decide_True by done.
        cbn [mbind option_bind].
        destruct (IH st1) as (st' & -> & HP' & Hp' & Ht' & Hn & Hpl); [done..|].
        exists st'. do 4 (split; [congruence|]). split; [done|].
        intros Hst'. by destruct Hst.
Qed.

(** X16. Two presses on the same cell with the same button, with releases
    and at least one run of the win check in between, and releases and win
    checks after. The first press marks the cell, or empties it when it held
    the mark of the tool. When that solves the puzzle the game is won, the
    second press is ignored and the grid stays as the first press left it.
    Otherwise the second press brings back the player grid when the cell was
    EMPTY or held the mark of the tool, and leaves EMPTY a cell that held the
    other mark; every other cell is as it was. *)
Theorem pressing_twice (n : nat) (button : Z) (r c : nat) (s : CellState)
    (mid tail : list Event) (st : AppState) :
  status (gameState st) = Playing → boardOf n st →
  r < n → c < n → cell (playerGrid st) r c = Some s →
  Forall idleEvent mid → existsb isCheck mid = true → Forall idleEvent tail →
  let tool := if (button =? 2)%Z then CROSS else activeTool st in
  ∃ p st1 st', puzzle st = Some p
    ∧ handleMouseDown button r c st = Some st1
    ∧ cell (playerGrid st1) r c
      = Some (if decide (s = markOf tool) then EMPTY else markOf tool)
    ∧ for_each (MouseDown button r c :: mid ++ MouseDown button r c :: tail)
        handle st = Some st'
    ∧ ((isWin p (playerGrid st1) = Some true
        ∧ status (gameState st') = Won
        ∧ playerGrid st' = playerGrid st1)
       ∨ (isWin p (playerGrid st1) = Some false
          ∧ cell (playerGrid st') r c
            = Some (if decide (s = EMPTY ∨ s = markOf tool) then s else EMPTY)
          ∧ (∀ r' c', (r', c') ≠ (r, c) →
               cell (playerGrid st') r' c' = cell (playerGrid st) r' c')
          ∧ (s = EMPTY ∨ s = markOf tool → playerGrid st' = playerGrid st))).
Proof.
  intros Hst (p & Hp & Hsize & HS & HP) Hr Hc Hs Hmid Hcheck Htail tool.
  assert (∀ s', toggled tool (Some s')
                = if decide (s' = markOf tool) then EMPTY else markOf tool) as Ht1.
  { intros s'. by destruct tool, s'. }
  assert (toggled tool (Some (toggled tool (Some s)))
          = if decide (s = EMPTY ∨ s = markOf tool) then s else EMPTY) as Ht2.
  { destruct tool, s; compute; try done.
    all: repeat case_decide; try done; exfalso; intuition discriminate. }
  destruct (handleMouseDown_playing n button r c st Hst HP Hr Hc) as (P1 & HP1 & Hmd1).
  fold tool in HP1, Hmd1. rewrite Hs in HP1, Hmd1.
  destruct (updateCell_spec n (playerGrid st) r c (toggled tool (Some s)) HP Hr Hc)
    as (P1' & HP1' & Hsq1 & Hcell1 & Hother1).
  rewrite HP1 in HP1'. injection HP1' as <-.
  set (st1 := setPlayerGrid P1 (setDrag true (Some (toggled tool (Some s))) st))
    in *.
  exists p, st1. cbn [for_each handle]. rewrite Hmd1. cbn [mbind option_bind].
  rewrite for_each_app.
  destruct (idle_steps n p Hsize HS mid st1) as (st2 & -> & HP2 & Hp2 & Htool2 & Hn2 & Hpl2);
    [done..|].
  cbn [mbind option_bind for_each handle].
  destruct (isWin_spec n p P1 Hsize HS Hsq1) as (won & Hwon & _).
  pose proof (Hpl2 Hst won Hwon) as Hst2. rewrite Hcheck in Hst2. simpl in Hst2.
  simpl playerGrid in *.
  destruct won.
  - assert (handleMouseDown button r c st2 = Some st2) as ->.
    { unfold handleMouseDown. rewrite decide_True; [done|]. by rewrite Hst2. }
    cbn [mbind option_bind].
    destruct (idle_steps n p Hsize HS tail st2) as (st' & -> & HP' & Hp' & _ & Hn' & _);
      [by rewrite Hp2|by rewrite HP2|done|].
    exists st'. split; [done|]. split; [done|].
    split; [by rewrite Hcell1, Ht1|]. split; [done|]. left.
    split; [done|]. split; [|congruence].
    rewrite Hn' by (by rewrite Hst2). done.
  - destruct (handleMouseDown_playing n button r c st2) as (P3 & HP3 & ->);
      [done|by rewrite HP2|done|done|].
    rewrite HP2, Htool2 in HP3 |- *. simpl activeTool in *. fold tool in HP3 |- *.
    rewrite Hcell1 in HP3 |- *.
    destruct (updateCell_spec n P1 r c (toggled tool (Some (toggled tool (Some s))))
                Hsq1 Hr Hc) as (P3' & HP3' & Hsq3 & Hcell3 & Hother3).
    rewrite HP3 in HP3'. injection HP3' as <-.
    cbn [mbind option_bind].
    destruct (idle_steps n p Hsize HS tail
                (setPlayerGrid P3
                   (setDrag true (Some (toggled tool (Some (toggled tool (Some s)))))
                      st2)))
      as (st' & -> & HP' & _); [simpl; by rewrite Hp2|done|done|].
    simpl in HP'. exists st'. split; [done|]. split; [done|].
    split; [by rewrite Ht1|]. split; [done|]. right.
    split; [done|]. rewrite HP'.
    split; [by rewrite Hcell3, Ht2|]. split.
    + intros r' c' Hne. by rewrite Hother3, Hother1.
    + intros Hkeep. apply (grid_ext n); [done..|].
      intros r' c' Hr' Hc'.
      destruct (decide ((r', c') = (r, c))) as [[= -> ->]|Hne].
      * rewrite Hcell3, Ht2, Hs. by rewrite decide_True.
      * by rewrite Hother3, Hother1.
Qed.

(** ** The further theorems at concrete inputs *)

Lemma smoothing_erodes_corners_witness :
  ∃ g', smoothIteration 2 [[1; 1]; [1; 0]]%Z = Some g'
      ∧ (cell g' 0 0 = Some 1%Z ↔
           cell [[1; 1]; [1; 0]]%Z 0 0 = Some 1%Z
           ∧ cell [[1; 1]; [1; 0]]%Z 0 1 = Some 1%Z
           ∧ cell [[1; 1]; [1; 0]]%Z 1 0 = Some 1%Z
           ∧ cell [[1; 1]; [1; 0]]%Z 1 1 = Some 1%Z).
Proof.
  apply (smoothing_erodes_corners 2 [[1; 1]; [1; 0]]%Z 0 0).
  - lia.
  - apply squareb_square; reflexivity.
  - left; reflexivity.
  - left; reflexivity.
Defined.

Lemma line_index_out_of_bounds_witness :
  isRowComplete (Some diagonal) diagonalPlay 2 = None
  ∧ isColComplete (Some diagonal) diagonalPlay 2 = Some true.
Proof.
  apply (line_index_out_of_bounds 2 diagonal diagonalPlay 2).
  - lia.
  - reflexivity.
  - apply squareb_square; reflexivity.
  - apply squareb_square; reflexivity.
  - lia.
Defined.

Lemma colHints_transpose_witness :
  square 2 (colHints (Some diagonal))
  ∧ (∀ r c, r < 2 → c < 2 →
       cell (colHints (Some diagonal)) c r = Some (cell (grid diagonal) r c)
       ∧ is_Some (cell (grid diagonal) r c))
  ∧ rowHints (Some diagonal) = grid diagonal.
Proof.
  apply (colHints_transpose 2 diagonal).
  - reflexivity.
  - apply squareb_square; reflexivity.
Defined.

Lemma updateCell_writes_one_cell_witness :
  (0 < 2 → 1 < 2 →
     ∃ P', updateCell diagonalPlay 0 1 CROSSED = Some P' ∧ square 2 P'
         ∧ cell P' 0 1 = Some CROSSED
         ∧ (∀ r' c', (r', c') ≠ (0, 1) → cell P' r' c' = cell diagonalPlay r' c')
         ∧ (cell diagonalPlay 0 1 = Some CROSSED → P' = diagonalPlay)
         ∧ updateCell P' 0 1 CROSSED = Some P')
  ∧ (2 ≤ 0 → updateCell diagonalPlay 0 1 CROSSED = None).
Proof.
  apply (updateCell_writes_one_cell 2 diagonalPlay 0 1 CROSSED).
  apply squareb_square; reflexivity.
Defined.

Lemma generated_filled_count_witness :
  ∃ p, generatePuzzle sin_series 42 5 MEDIUM = Some p
     ∧ (1 ≤ statsCount (Some p) ≤ Z.of_nat 5 * Z.of_nat 5 - 1)%Z.
Proof. apply (generated_filled_count sin_series 42 5 MEDIUM). lia. Defined.

Lemma startNewGame_sets_up_board_witness :
  let st' := startNewGame sin_series (Some (codeUnits "42")) 0.5 mountedApp in
  status (gameState st') = Playing
  ∧ (∃ p, puzzle st' = Some p ∧ size p = selectedSize mountedApp
        ∧ seed p = finalSeed (Some (codeUnits "42")) 0.5
        ∧ solutionGrid (selectedSize mountedApp) (grid p))
  ∧ playerGrid st' = createEmptyGrid (selectedSize mountedApp)
  ∧ square (selectedSize mountedApp) (playerGrid st')
  ∧ isDebugVisible st' = false ∧ isCheckHintsActive st' = false
  ∧ winCorner st' = None.
Proof.
  apply (startNewGame_sets_up_board sin_series (Some (codeUnits "42")) 0.5 mountedApp).
  simpl. lia.
Defined.

Lemma startNewGame_without_size_witness :
  let st := mkApp None [] (mkGameState Idle None) false false None FILL 0 Medium
              false None in
  let st' := startNewGame sin_series None 0.5 st in
  gameState st' = mkGameState Error (Some "Failed to generate puzzle."%string)
  ∧ puzzle st' = puzzle st ∧ playerGrid st' = playerGrid st.
Proof.
  apply (startNewGame_without_size sin_series None 0.5
           (mkApp None [] (mkGameState Idle None) false false None FILL 0 Medium
              false None)).
  reflexivity.
Defined.

Lemma new_game_is_not_won_witness :
  let st' := startNewGame sin_series (Some (codeUnits "42")) 0.5 mountedApp in
  winEffect 0.25 st' = Some st' ∧ status (gameState st') = Playing.
Proof.
  apply (new_game_is_not_won sin_series (Some (codeUnits "42")) 0.5 0.25 mountedApp).
  simpl. lia.
Defined.

Lemma boardOf_diagonalApp : boardOf 2 diagonalApp.
Proof.
  exists diagonal. split; [reflexivity|]. split; [reflexivity|].
  split; apply squareb_square; reflexivity.
Defined.

Lemma events_keep_board_witness :
  ∃ st', for_each [MouseDown 0 0 1; MouseEnter 1 0; MouseUp; WinCheck 0.5;
                   CheatWin; WinCheck 0.5] handle diagonalApp = Some st'
       ∧ boardOf 2 st' ∧ puzzle st' = puzzle diagonalApp.
Proof.
  apply (events_keep_board 2); [exact boardOf_diagonalApp|].
  repeat constructor; simpl; lia.
Defined.

Lemma grid_is_frozen_unless_playing_witness :
  let st := mkApp (Some diagonal) diagonalPlay (mkGameState Won None) false true
              (Some 1%float) FILL 2 Medium false None in
  ∃ st', for_each [MouseDown 0 0 0; MouseEnter 0 1; MouseUp; WinCheck 0.5]
           handle st = Some st'
       ∧ playerGrid st' = playerGrid st
       ∧ gameState st' = gameState st ∧ puzzle st' = puzzle st.
Proof.
  apply (grid_is_frozen_unless_playing
           [MouseDown 0 0 0; MouseEnter 0 1; MouseUp; WinCheck 0.5]
           (mkApp (Some diagonal) diagonalPlay (mkGameState Won None) false true
              (Some 1%float) FILL 2 Medium false None)).
  - simpl. discriminate.
  - repeat constructor; discriminate.
Defined.

Lemma cheat_then_check_wins_witness :
  ∃ p st', puzzle diagonalApp = Some p
    ∧ winEffect 0.5 (handleCheatWin diagonalApp) = Some st'
    ∧ gameState st' = mkGameState Won None
    ∧ playerGrid st' = solvedGrid p ∧ puzzle st' = Some p
    ∧ isDebugVisible st' = false ∧ isCheckHintsActive st' = true
    ∧ winCorner st' = Some (Math_floor (0.5 * 4)%float)
    ∧ (∀ i, i < 2 → isRowComplete (Some p) (playerGrid st') i = Some true
                ∧ isColComplete (Some p) (playerGrid st') i = Some true).
Proof.
  apply (cheat_then_check_wins 2 0.5 diagonalApp);
    [reflexivity|exact boardOf_diagonalApp].
Defined.

Lemma boardOf_startedApp : boardOf 2 startedApp.
Proof.
  exists diagonal. split; [reflexivity|]. split; [reflexivity|].
  split; apply squareb_square; reflexivity.
Defined.

Example drag_stops_at_the_win :
  ∃ st', for_each [MouseDown 0 0 0; WinCheck 0.5; MouseEnter 1 1; WinCheck 0.25;
                   MouseEnter 0 1; WinCheck 0.5] handle startedApp = Some st'
       ∧ playerGrid st' = [[FILLED; EMPTY]; [EMPTY; FILLED]]
       ∧ gameState st' = mkGameState Won None
       ∧ winCorner st' = Some 1%float.
Proof. eexists. split; [vm_compute; reflexivity|]. by vm_compute. Qed.

Example second_press_after_the_win :
  let st := setPlayerGrid [[FILLED; EMPTY]; [EMPTY; EMPTY]] startedApp in
  ∃ st', for_each [MouseDown 0 1 1; MouseUp; WinCheck 0.5; MouseDown 0 1 1;
                   MouseUp; WinCheck 0.5] handle st = Some st'
       ∧ playerGrid st' = [[FILLED; EMPTY]; [EMPTY; FILLED]]
       ∧ gameState st' = mkGameState Won None.
Proof. eexists. split; [vm_compute; reflexivity|]. by vm_compute. Qed.


Lemma pressing_twice_witness :
  let tool := if (0 =? 2)%Z then CROSS else activeTool startedApp in
  ∃ p st1 st', puzzle startedApp = Some p
    ∧ handleMouseDown 0 0 1 startedApp = Some st1
    ∧ cell (playerGrid st1) 0 1
      = Some (if decide (EMPTY = markOf tool) then EMPTY else markOf tool)
    ∧ for_each (MouseDown 0 0 1 :: [WinCheck 0.5; MouseUp]
                  ++ MouseDown 0 0 1 :: [WinCheck 0.5; MouseUp])
        handle startedApp = Some st'
    ∧ ((isWin p (playerGrid st1) = Some true
        ∧ status (gameState st') = Won
        ∧ playerGrid st' = playerGrid st1)
       ∨ (isWin p (playerGrid st1) = Some false
          ∧ cell (playerGrid st') 0 1
            = Some (if decide (EMPTY = EMPTY ∨ EMPTY = markOf tool)
                    then EMPTY else EMPTY)
          ∧ (∀ r' c', (r', c') ≠ (0, 1) →
               cell (playerGrid st') r' c' = cell (playerGrid startedApp) r' c')
          ∧ (EMPTY = EMPTY ∨ EMPTY = markOf tool →
               playerGrid st' = playerGrid startedApp))).
Proof.
  apply (pressing_twice 2 0 0 1 EMPTY [WinCheck 0.5; MouseUp]
           [WinCheck 0.5; MouseUp] startedApp).
  - reflexivity.
  - exact boardOf_startedApp.
  - lia.
  - lia.
  - reflexivity.
  - repeat constructor.
  - reflexivity.
  - repeat constructor.
Defined.
